(** * IconFont compiler: identifier registry, icon collection and format
    orchestration of [iconFontCompiler.ts], embedded in Rocq.

    Conventions of the embedding.
    - A JavaScript [Set<string>] is a [gset string], a [Set<number>] a
      [gset Z]; the mutation [set.add(x)] is the new set [{[x]} ∪ set],
      returned next to the function's value (explicit state passing).
    - A JavaScript number is an integer or NaN ([jsnum]), which is what a
      code point or a cursor is; [undefined] handed to [isNaN] behaves as
      NaN.  Arithmetic on these numbers is that of [Z], which is what IEEE
      doubles do from -2^53 to 2^53.  [Double.increment] is [x++] as a double
      computes it on every integer, and [scan_leaves] is the scanning loop
      of [getUniqueUnicode] in that arithmetic: from 2^53 on the loop can
      stay at one number for ever.  A statement that says that a scan
      returns is therefore made on [scan_leaves], or carries the bound under
      which the two arithmetics agree.  Numbers with a fraction are not
      represented; [parseFloat] and the division of a percentage are
      collaborators.
    - Strings are Stdlib strings (sequences of bytes, UTF-8 for text outside
      ASCII).
    - [throw] and a rejected promise are the [Throw] constructor of
      [outcome]; an [await] is the bind of that type.
    - [generateIconFont] runs in [gen], which also lists the generators it
      has called, so that "generated once" can be stated. *)

From Stdlib Require Import ZArith NArith Ascii String List Wf_nat.
From Stdlib Require Import HexadecimalString HexadecimalN.
From Stdlib Require HexadecimalPos.
From stdpp Require Import base numbers gmap sets strings list pretty option.

Set Warnings "-register-all,-clear-no-such-hyp".

Local Open Scope string_scope.
Local Open Scope list_scope.
Local Open Scope Z_scope.

(** ** Numbers and results *)

Inductive jsnum : Type :=
| NaN : jsnum
| Num (z : Z) : jsnum.

#[global] Instance jsnum_eq_dec : EqDecision jsnum.
Proof. solve_decision. Defined.

Inductive outcome (A : Type) : Type :=
| Ok (a : A) : outcome A
| Throw (message : string) : outcome A.
Arguments Ok {A} a.
Arguments Throw {A} message.

(** Sequencing of calls that may throw: [x ← m; k] runs [k] only when [m]
    returned. *)
#[global] Instance outcome_ret : MRet outcome := λ A a, Ok a.
#[global] Instance outcome_bind : MBind outcome := λ A B k m,
  match m with
  | Ok a => k a
  | Throw e => Throw e
  end.

(** ** Identifier registry *)

Module Registry.

(** The string probed at counter [i]: [content + "-" + i]. *)
Definition candidate (content : string) (i : N) : string :=
  content +:+ "-" +:+ pretty i.

(** One turn of the [for (let i = 2; ; i++)] loop of [getUnique]: from
    counter [i] the loop goes on to [i + 1] exactly when the candidate at
    [i] is taken. *)
Definition probe_next (content : string) (set : gset string) (j i : N) : Prop :=
  candidate content i ∈ set ∧ j = N.succ i.

Fixpoint probe (content : string) (set : gset string) (i : N)
    (acc : Acc (probe_next content set) i) {struct acc} : string :=
  let newContent := candidate content i in
  match decide (newContent ∈ set) with
  | left Hin => probe content set (N.succ i) (Acc_inv acc (conj Hin eq_refl))
  | right _ => newContent
  end.

Lemma candidate_inj content : Inj (=) (=) (candidate content).
Proof.
  intros i j H. unfold candidate in H.
  apply (inj (String.append content)) in H.
  apply (inj (String.append "-")) in H.
  by apply (inj pretty) in H.
Qed.

(** The loop terminates: the set is finite and the candidates are pairwise
    different, so only finitely many of them are taken. *)
Lemma probe_next_acc content (set : gset string) (n : nat) :
  ∀ (rest : gset string) (i : N),
    (size rest ≤ n)%nat →
    (∀ k, (i ≤ k)%N → candidate content k ∈ set → candidate content k ∈ rest) →
    Acc (probe_next content set) i.
Proof.
  induction n as [|n IH]; intros rest i Hsize Hrest; constructor; intros j [Hin ->].
  - apply Hrest in Hin; [|lia].
    assert (size rest = 0)%nat as Hz%size_empty_iff by lia. set_solver.
  - apply (IH (rest ∖ {[candidate content i]})).
    + assert (candidate content i ∈ rest) as Hr by (apply Hrest; [lia|done]).
      pose proof (size_difference rest {[candidate content i]}) as Hd.
      rewrite size_singleton in Hd.
      assert (size rest ≠ 0)%nat by (intros Hz%size_empty_iff; set_solver).
      rewrite Hd; [lia | set_solver].
    + intros k Hk Hks. apply elem_of_difference. split.
      * apply Hrest; [lia | done].
      * rewrite elem_of_singleton. intros Heq. apply candidate_inj in Heq. lia.
Qed.

Lemma probe_next_wf content (set : gset string) : well_founded (probe_next content set).
Proof. intros i. apply (probe_next_acc content set (size set) set); auto. Qed.

(** The loop entered at counter [i]. *)
Definition probe_from (content : string) (set : gset string) (i : N) : string :=
  probe content set i (wf_guard 32 (probe_next_wf content set) i).
#[global] Arguments probe_from : simpl never.

(** [getUnique(content, set)]: the returned string and the set after
    [set.add]. *)
Definition getUnique (content : string) (set : gset string) : string * gset string :=
  let content :=
    if decide (content ∈ set) then probe_from content set 2 else content in
  (content, {[content]} ∪ set).
#[global] Arguments getUnique : simpl never.

(** One turn of [while (set.has(startUnicode)) startUnicode++]. *)
Definition scan_next (set : gset Z) (j i : Z) : Prop :=
  i ∈ set ∧ j = i + 1.

Fixpoint scan (set : gset Z) (startUnicode : Z)
    (acc : Acc (scan_next set) startUnicode) {struct acc} : Z :=
  match decide (startUnicode ∈ set) with
  | left Hin => scan set (startUnicode + 1) (Acc_inv acc (conj Hin eq_refl))
  | right _ => startUnicode
  end.

Lemma scan_next_acc (set : gset Z) (n : nat) :
  ∀ (rest : gset Z) (i : Z),
    (size rest ≤ n)%nat →
    (∀ k, i ≤ k → k ∈ set → k ∈ rest) →
    Acc (scan_next set) i.
Proof.
  induction n as [|n IH]; intros rest i Hsize Hrest; constructor; intros j [Hin ->].
  - apply Hrest in Hin; [|lia].
    assert (size rest = 0)%nat as Hz%size_empty_iff by lia. set_solver.
  - apply (IH (rest ∖ {[i]})).
    + assert (i ∈ rest) as Hr by (apply Hrest; [lia|done]).
      pose proof (size_difference rest {[i]}) as Hd.
      rewrite size_singleton in Hd.
      assert (size rest ≠ 0)%nat by (intros Hz%size_empty_iff; set_solver).
      rewrite Hd; [lia | set_solver].
    + intros k Hk Hks. apply elem_of_difference. split.
      * apply Hrest; [lia | done].
      * rewrite elem_of_singleton. lia.
Qed.

Lemma scan_next_wf (set : gset Z) : well_founded (scan_next set).
Proof. intros i. apply (scan_next_acc set (size set) set); auto. Qed.

(** The loop entered at [startUnicode]. *)
Definition scan_from (set : gset Z) (startUnicode : Z) : Z :=
  scan set startUnicode (wf_guard 32 (scan_next_wf set) startUnicode).
#[global] Arguments scan_from : simpl never.

(** [getUniqueUnicode(startUnicode, set)]: the returned code point and the
    set after [set.add]. *)
Definition getUniqueUnicode (startUnicode : jsnum) (set : gset Z) : Z * gset Z :=
  let startUnicode := match startUnicode with NaN => 0xea01 | Num z => z end in
  let startUnicode :=
    if decide (startUnicode ∈ set) then scan_from set startUnicode
    else startUnicode in
  (startUnicode, {[startUnicode]} ∪ set).
#[global] Arguments getUniqueUnicode : simpl never.

End Registry.

Import Registry.

(** ** Code points as doubles *)

Module Double.
(** The integer a double holds after an operation whose exact result is the
    integer [v]: [v] itself below 2^53 in magnitude, and from there on the
    nearest integer whose significand has 53 bits, a tie going to the even
    significand. *)
Definition round (v : Z) : Z :=
  let magnitude := Z.abs v in
  if magnitude <? 2 ^ 53 then v
  else
    let ulp := 2 ^ (Z.log2 magnitude - 52) in
    let significand := magnitude / ulp in
    let rest := magnitude mod ulp in
    let significand :=
      if 2 * rest <? ulp then significand
      else if ulp <? 2 * rest then significand + 1
      else if Z.even significand then significand
      else significand + 1 in
    Z.sgn v * (significand * ulp).

(** [x++] *)
Definition increment (x : Z) : Z := round (x + 1).
End Double.

(** One turn of [while (set.has(startUnicode)) startUnicode++] as the
    program computes it. *)
Definition scan_turn (set : gset Z) (startUnicode next : Z) : Prop :=
  startUnicode ∈ set ∧ next = Double.increment startUnicode.

(** The loop entered at [startUnicode] is left with [value]: after some
    turns the number is [value], which the set does not hold. *)
Definition scan_leaves (set : gset Z) (startUnicode value : Z) : Prop :=
  rtc (scan_turn set) startUnicode value ∧ value ∉ set.

(** ** Data model *)

Definition Buffer : Type := list Byte.byte.

(** A node of the tree built by the XML parser: [name], [attr], [children]
    and the text [toString()] serialises it to. *)
Inductive SVGNode : Type :=
| Node (name : option string) (attr : option (gmap string string))
       (children : option (list SVGNode)) (text : string) : SVGNode.

Definition name (n : SVGNode) : option string :=
  match n with Node x _ _ _ => x end.
Definition attr (n : SVGNode) : option (gmap string string) :=
  match n with Node _ x _ _ => x end.
Definition children (n : SVGNode) : option (list SVGNode) :=
  match n with Node _ _ x _ => x end.

(** What the registered icon object is underneath its added properties: a
    parsed node ([processNode]) or a [String] object
    ([compileIconFontFromSources]). *)
Inductive IconObject : Type :=
| OfNode (node : SVGNode) : IconObject
| OfString (content : string) : IconObject.

(** An icon as it is pushed on [result.icons]: by then [iconName],
    [className] and [unicode] have been assigned; [autoUnicode] is [true] or
    was never set ([false] here); [title] is set by [processNode] only. *)
Record SVGIcon : Type := {
  object : IconObject;
  iconName : string;
  unicode : Z;
  autoUnicode : bool;
  className : string;
  title : option string
}.

Definition toString (icon : SVGIcon) : string :=
  match object icon with
  | OfNode (Node _ _ _ text) => text
  | OfString content => content
  end.

Module Format.
Inductive t : Type :=
| svgFont | ttf | eot | woff | woff2 | js | svg | css | html.

#[global] Instance eq_dec : EqDecision t.
Proof. solve_decision. Defined.
End Format.

Module Options.
Record TtfOptions : Type := {
  copyright : option string;
  description : option string;
  ts : option jsnum;
  url : option string;
  version : option string
}.

(** Function-valued options: what the caller passed, or the empty
    function [() => { }] that [generateSVGFont] installs. *)
Inductive Callback : Type :=
| supplied (handle : nat) : Callback
| emptyFunction : Callback.

Record IconFontOptions : Type := {
  fontName : option string;
  fontId : option string;
  fontStyle : option string;
  fontWeight : option string;
  fixedWidth : option bool;
  centerHorizontally : option bool;
  normalize : option bool;
  fontHeight : option jsnum;
  round : option jsnum;
  descent : option jsnum;
  ascent : option jsnum;
  metadata : option string;
  metadataProvider : option Callback;
  log : option Callback;
  startUnicode : option jsnum;
  prependUnicode : option bool;
  classNamePrefix : option string;
  ttf : option TtfOptions;
  fileName : option string;
  hash : option string
}.

(** [{}] *)
Definition empty : IconFontOptions :=
  {| fontName := None; fontId := None; fontStyle := None; fontWeight := None;
     fixedWidth := None; centerHorizontally := None; normalize := None;
     fontHeight := None; round := None; descent := None; ascent := None;
     metadata := None; metadataProvider := None; log := None;
     startUnicode := None; prependUnicode := None; classNamePrefix := None;
     ttf := None; fileName := None; hash := None |}.

(** [a ?? b] *)
Definition nullish {A : Type} (a b : option A) : option A :=
  match a with Some x => Some x | None => b end.

(** [{ ...base, ...over }]: a property of [over] replaces that of [base].
    (A property that [over] carries with the value [undefined] is not
    distinguished from an absent one.) *)
Definition spread (base over : IconFontOptions) : IconFontOptions :=
  {| fontName := nullish (fontName over) (fontName base);
     fontId := nullish (fontId over) (fontId base);
     fontStyle := nullish (fontStyle over) (fontStyle base);
     fontWeight := nullish (fontWeight over) (fontWeight base);
     fixedWidth := nullish (fixedWidth over) (fixedWidth base);
     centerHorizontally := nullish (centerHorizontally over) (centerHorizontally base);
     normalize := nullish (normalize over) (normalize base);
     fontHeight := nullish (fontHeight over) (fontHeight base);
     round := nullish (round over) (round base);
     descent := nullish (descent over) (descent base);
     ascent := nullish (ascent over) (ascent base);
     metadata := nullish (metadata over) (metadata base);
     metadataProvider := nullish (metadataProvider over) (metadataProvider base);
     log := nullish (log over) (log base);
     startUnicode := nullish (startUnicode over) (startUnicode base);
     prependUnicode := nullish (prependUnicode over) (prependUnicode base);
     classNamePrefix := nullish (classNamePrefix over) (classNamePrefix base);
     ttf := nullish (ttf over) (ttf base);
     fileName := nullish (fileName over) (fileName base);
     hash := nullish (hash over) (hash base) |}.
End Options.

Abbreviation IconFontOptions := Options.IconFontOptions.
Notation "a ?? b" := (Options.nullish a b) (at level 60, right associativity).

(** [a ?? b] with a right operand that is never nullish *)
Definition orElse {A : Type} (a : option A) (b : A) : A :=
  match a with Some x => x | None => b end.
Notation "a ??! b" := (orElse a b) (at level 60, right associativity).

Record CompileIconFontResult : Type := {
  svgFont : option string;
  eot : option Buffer;
  ttf : option Buffer;
  woff : option Buffer;
  woff2 : option Buffer;
  js : option string;
  svg : option string;
  css : option string;
  html : option string;
  dependencies : list string;
  globDependencies : list (string * string);
  icons : list SVGIcon;
  iconNames : gset string;
  unicodes : gset Z;
  classNames : gset string;
  startUnicode : jsnum
}.

(** The object literal both entry points start from. *)
Definition newResult (startUnicode : jsnum) : CompileIconFontResult :=
  {| svgFont := None; eot := None; ttf := None; woff := None; woff2 := None;
     js := None; svg := None; css := None; html := None;
     dependencies := []; globDependencies := [];
     icons := []; iconNames := ∅; unicodes := ∅; classNames := ∅;
     startUnicode := startUnicode |}.

(** Assignments to the fields of the shared [result] object. *)

(** [result.svgFont = value] *)
Definition set_svgFont (result : CompileIconFontResult) (value : string) : CompileIconFontResult :=
  {| svgFont := Some value; eot := eot result; ttf := ttf result;
     woff := woff result; woff2 := woff2 result; js := js result;
     svg := svg result; css := css result; html := html result;
     dependencies := dependencies result;
     globDependencies := globDependencies result; icons := icons result;
     iconNames := iconNames result; unicodes := unicodes result;
     classNames := classNames result; startUnicode := startUnicode result |}.

(** [result.ttf = value] *)
Definition set_ttf (result : CompileIconFontResult) (value : Buffer) : CompileIconFontResult :=
  {| svgFont := svgFont result; eot := eot result; ttf := Some value;
     woff := woff result; woff2 := woff2 result; js := js result;
     svg := svg result; css := css result; html := html result;
     dependencies := dependencies result;
     globDependencies := globDependencies result; icons := icons result;
     iconNames := iconNames result; unicodes := unicodes result;
     classNames := classNames result; startUnicode := startUnicode result |}.

(** [result.eot = value] *)
Definition set_eot (result : CompileIconFontResult) (value : Buffer) : CompileIconFontResult :=
  {| svgFont := svgFont result; eot := Some value; ttf := ttf result;
     woff := woff result; woff2 := woff2 result; js := js result;
     svg := svg result; css := css result; html := html result;
     dependencies := dependencies result;
     globDependencies := globDependencies result; icons := icons result;
     iconNames := iconNames result; unicodes := unicodes result;
     classNames := classNames result; startUnicode := startUnicode result |}.

(** [result.woff = value] *)
Definition set_woff (result : CompileIconFontResult) (value : Buffer) : CompileIconFontResult :=
  {| svgFont := svgFont result; eot := eot result; ttf := ttf result;
     woff := Some value; woff2 := woff2 result; js := js result;
     svg := svg result; css := css result; html := html result;
     dependencies := dependencies result;
     globDependencies := globDependencies result; icons := icons result;
     iconNames := iconNames result; unicodes := unicodes result;
     classNames := classNames result; startUnicode := startUnicode result |}.

(** [result.woff2 = value] *)
Definition set_woff2 (result : CompileIconFontResult) (value : Buffer) : CompileIconFontResult :=
  {| svgFont := svgFont result; eot := eot result; ttf := ttf result;
     woff := woff result; woff2 := Some value; js := js result;
     svg := svg result; css := css result; html := html result;
     dependencies := dependencies result;
     globDependencies := globDependencies result; icons := icons result;
     iconNames := iconNames result; unicodes := unicodes result;
     classNames := classNames result; startUnicode := startUnicode result |}.

(** [result.svg = value] *)
Definition set_svg (result : CompileIconFontResult) (value : string) : CompileIconFontResult :=
  {| svgFont := svgFont result; eot := eot result; ttf := ttf result;
     woff := woff result; woff2 := woff2 result; js := js result;
     svg := Some value; css := css result; html := html result;
     dependencies := dependencies result;
     globDependencies := globDependencies result; icons := icons result;
     iconNames := iconNames result; unicodes := unicodes result;
     classNames := classNames result; startUnicode := startUnicode result |}.

(** [result.js = value] *)
Definition set_js (result : CompileIconFontResult) (value : string) : CompileIconFontResult :=
  {| svgFont := svgFont result; eot := eot result; ttf := ttf result;
     woff := woff result; woff2 := woff2 result; js := Some value;
     svg := svg result; css := css result; html := html result;
     dependencies := dependencies result;
     globDependencies := globDependencies result; icons := icons result;
     iconNames := iconNames result; unicodes := unicodes result;
     classNames := classNames result; startUnicode := startUnicode result |}.

(** [result.css = value] *)
Definition set_css (result : CompileIconFontResult) (value : string) : CompileIconFontResult :=
  {| svgFont := svgFont result; eot := eot result; ttf := ttf result;
     woff := woff result; woff2 := woff2 result; js := js result;
     svg := svg result; css := Some value; html := html result;
     dependencies := dependencies result;
     globDependencies := globDependencies result; icons := icons result;
     iconNames := iconNames result; unicodes := unicodes result;
     classNames := classNames result; startUnicode := startUnicode result |}.

(** [result.html = value] *)
Definition set_html (result : CompileIconFontResult) (value : string) : CompileIconFontResult :=
  {| svgFont := svgFont result; eot := eot result; ttf := ttf result;
     woff := woff result; woff2 := woff2 result; js := js result;
     svg := svg result; css := css result; html := Some value;
     dependencies := dependencies result;
     globDependencies := globDependencies result; icons := icons result;
     iconNames := iconNames result; unicodes := unicodes result;
     classNames := classNames result; startUnicode := startUnicode result |}.

(** [result.dependencies.push(path)] *)
Definition push_dependency (result : CompileIconFontResult) (path : string) : CompileIconFontResult :=
  {| svgFont := svgFont result; eot := eot result; ttf := ttf result;
     woff := woff result; woff2 := woff2 result; js := js result;
     svg := svg result; css := css result; html := html result;
     dependencies := dependencies result ++ [path];
     globDependencies := globDependencies result; icons := icons result;
     iconNames := iconNames result; unicodes := unicodes result;
     classNames := classNames result; startUnicode := startUnicode result |}.

(** [result.globDependencies.push({ glob, cwd })] *)
Definition push_globDependency (result : CompileIconFontResult) (glob cwd : string) : CompileIconFontResult :=
  {| svgFont := svgFont result; eot := eot result; ttf := ttf result;
     woff := woff result; woff2 := woff2 result; js := js result;
     svg := svg result; css := css result; html := html result;
     dependencies := dependencies result;
     globDependencies := globDependencies result ++ [(glob, cwd)];
     icons := icons result; iconNames := iconNames result;
     unicodes := unicodes result; classNames := classNames result;
     startUnicode := startUnicode result |}.


(** ** Collaborators *)

(** [tutils/fileSystem]: the injected file system. *)
Record FileSystem : Type := {
  readText : string → outcome string;
  glob : string → string → outcome (list string)
}.

(** Everything the compiler imports or leaves to the JavaScript runtime:
    path and pattern helpers of [tutils], the XML parser, the number parser
    for decimal literals, the font codecs, and the three renderers whose
    text is not inspected here. *)
Class Externals : Type := {
  (** [isGlob(pattern)] *)
  isGlob : string → bool;
  (** [getDir(path)] *)
  getDir : string → string;
  (** [getName(path, false)] *)
  getName : string → string;
  (** [resolvePath(path, "..", src)] *)
  resolvePath : string → string → string;
  (** [new xmldoc.XmlDocument(content)] *)
  XmlDocument : string → outcome SVGNode;
  (** [parseFloat(value)] *)
  parseFloat : string → jsnum;
  (** [x / 100] *)
  divideBy100 : jsnum → jsnum;
  (** [value.codePointAt(0)] *)
  codePointAt0 : string → option jsnum;
  (** the [SVGIcons2SVGFontStream] fed with one glyph per icon, up to
      [finish] or [error] *)
  SVGIcons2SVGFontStream : IconFontOptions → list SVGIcon → outcome string;
  svg2ttf : option string → option Options.TtfOptions → outcome Buffer;
  ttf2eot : option Buffer → outcome Buffer;
  ttf2woff : option Buffer → IconFontOptions → outcome Buffer;
  wawoff2_compress : option Buffer → outcome Buffer;
  generateSVGSprite : list SVGIcon → IconFontOptions → outcome string;
  generateJS : option string → IconFontOptions → outcome string;
  generateHTML : list SVGIcon → IconFontOptions → outcome string
}.

(** ** Attribute parsers *)

(** [value.startsWith(prefix)] *)
Definition startsWith (value prefix : string) : bool := String.prefix prefix value.

(** [value.endsWith(suffix)] *)
Definition endsWith (value suffix : string) : bool :=
  String.prefix (String.rev suffix) (String.rev value).

(** [value.slice(n)] for [0 <= n] *)
Fixpoint slice (n : nat) (value : string) : string :=
  match n, value with
  | S n, String _ rest => slice n rest
  | _, _ => value
  end.

Module ParseInt.
(** [parseInt(text, 16)] on ASCII text: white space is skipped, then a
    sign, then [0x] or [0X]; the longest run of hexadecimal digits that
    follows is the value, and NaN when that run is empty. *)

Definition isWhiteSpace (c : ascii) : bool :=
  let n := N_of_ascii c in
  ((9 <=? n) && (n <=? 13) || (n =? 32))%N.

Fixpoint trimStart (text : string) : string :=
  match text with
  | String c rest => if isWhiteSpace c then trimStart rest else text
  | EmptyString => text
  end.

Definition digit (c : ascii) : option Z :=
  let n := Z.of_N (N_of_ascii c) in
  if (48 <=? n) && (n <=? 57) then Some (n - 48)
  else if (97 <=? n) && (n <=? 102) then Some (n - 87)
  else if (65 <=? n) && (n <=? 70) then Some (n - 55)
  else None.

Fixpoint digits (text : string) (value : option Z) : option Z :=
  match text with
  | String c rest =>
      match digit c with
      | Some d => digits rest (Some (16 * (value ??! 0) + d))
      | None => value
      end
  | EmptyString => value
  end.

Definition parseInt16 (text : string) : jsnum :=
  let text := trimStart text in
  let '(sign, text) :=
    match text with
    | String "-" rest => (-1, rest)
    | String "+" rest => (1, rest)
    | _ => (1, text)
    end in
  let text :=
    if startsWith text "0x" || startsWith text "0X" then slice 2 text else text in
  match digits text None with
  | Some value => Num (sign * value)
  | None => NaN
  end.
End ParseInt.

Section Compiler.
Context `{Externals}.

Definition parseBoolean (value : option string) : option bool :=
  match value with
  | None => None
  | Some value => Some (bool_decide (value ≠ "false"))
  end.

Definition parseNumber (value : option string) : option jsnum :=
  match value with
  | None => None
  | Some value =>
      if startsWith value "0x" then Some (ParseInt.parseInt16 (slice 2 value))
      else if endsWith value "%" then Some (divideBy100 (parseFloat value))
      else Some (parseFloat value)
  end.

(** A [number | undefined] argument of [getUniqueUnicode]:
    [isNaN(undefined)] holds, so [undefined] is replaced like NaN. *)
Definition numberArgument (value : option jsnum) : jsnum := value ??! NaN.

(** ** Collection *)

(** [icon.attr?.key] *)
Definition attribute (icon : SVGNode) (key : string) : option string :=
  attr icon ≫= (λ attrs : gmap string string, attrs !! key).

Definition processNode (icon : SVGNode) (path : string)
    (result : CompileIconFontResult) : CompileIconFontResult :=
  if decide (name icon = Some "svg") then
    let '(iconName, iconNames) :=
      getUnique (attribute icon "id" ??! getName path) (iconNames result) in
    let '(className, classNames) :=
      getUnique (attribute icon "class" ??! iconName) (classNames result) in
    let '(unicode, unicodes, startUnicode, autoUnicode) :=
      match attribute icon "unicode" with
      | Some text =>
          let '(unicode, unicodes) :=
            getUniqueUnicode
              (numberArgument
                 (if startsWith text "0x" then parseNumber (Some text)
                  else codePointAt0 text))
              (unicodes result) in
          (unicode, unicodes, startUnicode result, false)
      | None =>
          let '(unicode, unicodes) :=
            getUniqueUnicode (startUnicode result) (unicodes result) in
          (unicode, unicodes, Num unicode, true)
      end in
    let title := attribute icon "title" ?? Some iconName in
    {| svgFont := svgFont result; eot := eot result; ttf := ttf result;
       woff := woff result; woff2 := woff2 result; js := js result;
       svg := svg result; css := css result; html := html result;
       dependencies := dependencies result;
       globDependencies := globDependencies result;
       icons := icons result ++
         [{| object := OfNode icon; iconName := iconName; unicode := unicode;
             autoUnicode := autoUnicode; className := className;
             title := title |}];
       iconNames := iconNames; unicodes := unicodes; classNames := classNames;
       startUnicode := startUnicode |}
  else result.

Definition processFile (path : string) (result : CompileIconFontResult)
    (fs : FileSystem) : outcome CompileIconFontResult :=
  let result := push_dependency result path in
  content ← readText fs path;
  rootNode ← XmlDocument content;
  mret (processNode rootNode path result).

(** [for (const fullPath of ...) await processFile(fullPath, result, fs)] *)
Fixpoint processFiles (paths : list string) (result : CompileIconFontResult)
    (fs : FileSystem) : outcome CompileIconFontResult :=
  match paths with
  | [] => mret result
  | fullPath :: paths =>
      result ← processFile fullPath result fs;
      processFiles paths result fs
  end.

(** The body of [for (const childNode of rootNode.children)] in
    [compileIconFont]. *)
Definition processChild (childNode : SVGNode) (path : string)
    (result : CompileIconFontResult) (fs : FileSystem)
    : outcome CompileIconFontResult :=
  if decide (name childNode = Some "svg") then
    match attribute childNode "src" with
    | None => mret (processNode childNode path result)
    | Some src =>
        if isGlob src then
          let baseDir := getDir path in
          let result := push_globDependency result src baseDir in
          fullPaths ← glob fs src baseDir;
          processFiles fullPaths result fs
        else processFile (resolvePath path src) result fs
    end
  else mret result.

Fixpoint processChildren (childNodes : list SVGNode) (path : string)
    (result : CompileIconFontResult) (fs : FileSystem)
    : outcome CompileIconFontResult :=
  match childNodes with
  | [] => mret result
  | childNode :: childNodes =>
      result ← processChild childNode path result fs;
      processChildren childNodes path result fs
  end.

(** The part of [compileIconFont] between parsing the manifest and the
    call of [generateIconFont]: the fresh [result] and the walk over the
    root node. *)
Definition collectIconFont (rootNode : SVGNode) (path : string)
    (options : option IconFontOptions) (fs : FileSystem)
    : outcome CompileIconFontResult :=
  let attrs := attr rootNode ??! ∅ in
  let result :=
    newResult ((options ≫= Options.startUnicode)
               ??! (parseNumber (attrs !! "startUnicode") ??! Num 0xea01)) in
  if decide (name rootNode = Some "iconfont") then
    match children rootNode with
    | Some childNodes => processChildren childNodes path result fs
    | None => mret result
    end
  else mret (processNode rootNode path result).

(** The options literal [compileIconFont] hands to [generateIconFont]. *)
Definition manifestOptions (rootNode : SVGNode) (path : string)
    (result : CompileIconFontResult) (options : option IconFontOptions)
    : IconFontOptions :=
  let attrs := attr rootNode ??! ∅ in
  Options.spread
    {| Options.fontName := Some (attrs !! "fontName" ??! getName path);
       Options.ascent := parseNumber (attrs !! "ascent");
       Options.centerHorizontally := parseBoolean (attrs !! "centerHorizontally");
       Options.descent := parseNumber (attrs !! "descent");
       Options.fixedWidth := parseBoolean (attrs !! "fixedWidth");
       Options.fontHeight := parseNumber (attrs !! "fontHeight");
       Options.fontId := attrs !! "fontId";
       Options.fontStyle := attrs !! "fontStyle";
       Options.fontWeight := attrs !! "fontWeight";
       Options.metadata := attrs !! "metadata";
       Options.normalize := parseBoolean (attrs !! "normalize");
       Options.round := parseNumber (attrs !! "foroundntHeight");
       Options.startUnicode := Some (startUnicode result);
       Options.classNamePrefix := attrs !! "classNamePrefix";
       Options.fileName := Some path;
       Options.metadataProvider := None; Options.log := None;
       Options.prependUnicode := None; Options.ttf := None;
       Options.hash := None |}
    (options ??! Options.empty).

End Compiler.

(** ** Sources given directly *)

Module Source.
(** [{ path: string, content?: string } & SVGIcon] *)
Record object : Type := {
  path : string;
  content : option string;
  iconName : option string;
  unicode : option jsnum;
  autoUnicode : option bool;
  className : option string;
  title : option string
}.

Inductive t : Type :=
| Path (path : string) : t
| Object (source : object) : t.
End Source.

Section Sources.
Context `{Externals}.

(** [icon.iconName], [icon.className] and [icon.unicode] read from the
    object [new String(...)] has just created: a new [String] object has
    none of them (nothing of [source] but its text is copied). *)
Definition ownProperty {A : Type} (icon : IconObject) : option A := None.

(** The body of [for (const source of sources)] in
    [compileIconFontFromSources]. *)
Definition processSource (source : Source.t) (result : CompileIconFontResult)
    (fs : FileSystem) : outcome CompileIconFontResult :=
  match source with
  | Source.Path path => processFile path result fs
  | Source.Object source =>
      let result := push_dependency result (Source.path source) in
      content ← match Source.content source with
                | Some content => mret content
                | None => readText fs (Source.path source)
                end;
      let icon := OfString content in
      let '(iconName, iconNames) :=
        getUnique (ownProperty icon ??! getName (Source.path source))
                  (iconNames result) in
      let '(className, classNames) :=
        getUnique (ownProperty icon ??! iconName) (classNames result) in
      let '(unicode, unicodes, startUnicode, autoUnicode) :=
        match ownProperty icon with
        | Some candidate =>
            let '(unicode, unicodes) :=
              getUniqueUnicode candidate (unicodes result) in
            (unicode, unicodes, startUnicode result, false)
        | None =>
            let '(unicode, unicodes) :=
              getUniqueUnicode (startUnicode result) (unicodes result) in
            (unicode, unicodes, Num unicode, true)
        end in
      mret
        {| svgFont := svgFont result; eot := eot result; ttf := ttf result;
           woff := woff result; woff2 := woff2 result; js := js result;
           svg := svg result; css := css result; html := html result;
           dependencies := dependencies result;
           globDependencies := globDependencies result;
           icons := icons result ++
             [{| object := icon; iconName := iconName; unicode := unicode;
                 autoUnicode := autoUnicode; className := className;
                 title := None |}];
           iconNames := iconNames; unicodes := unicodes;
           classNames := classNames; startUnicode := startUnicode |}
  end.

Fixpoint processSources (sources : list Source.t)
    (result : CompileIconFontResult) (fs : FileSystem)
    : outcome CompileIconFontResult :=
  match sources with
  | [] => mret result
  | source :: sources =>
      result ← processSource source result fs;
      processSources sources result fs
  end.

(** The part of [compileIconFontFromSources] before the call of
    [generateIconFont]. *)
Definition collectSources (sources : list Source.t)
    (options : option IconFontOptions) (fs : FileSystem)
    : outcome CompileIconFontResult :=
  processSources sources
    (newResult ((options ≫= Options.startUnicode) ??! Num 0xea01)) fs.

End Sources.

(** ** Format orchestration *)

Module Flags.
(** The nine local flags of [generateIconFont]; a flag that was never
    assigned is [undefined], which the [if]s read as [false]. *)
Record t : Type := {
  svgFont : bool; eot : bool; ttf : bool; woff : bool; woff2 : bool;
  js : bool; svg : bool; css : bool; html : bool
}.

Definition unset : t :=
  {| svgFont := false; eot := false; ttf := false; woff := false;
     woff2 := false; js := false; svg := false; css := false; html := false |}.

(** One turn of [for (const format of formats) switch (format)]. *)
Definition select (flags : t) (format : Format.t) : t :=
  match format with
  | Format.svgFont =>
      {| svgFont := true; eot := eot flags; ttf := ttf flags; woff := woff flags;
         woff2 := woff2 flags; js := js flags; svg := svg flags; css := css flags;
         html := html flags |}
  | Format.ttf =>
      {| svgFont := true; eot := eot flags; ttf := true; woff := woff flags;
         woff2 := woff2 flags; js := js flags; svg := svg flags; css := css flags;
         html := html flags |}
  | Format.eot =>
      {| svgFont := true; eot := true; ttf := true; woff := woff flags;
         woff2 := woff2 flags; js := js flags; svg := svg flags; css := css flags;
         html := html flags |}
  | Format.woff =>
      {| svgFont := true; eot := eot flags; ttf := true; woff := true;
         woff2 := woff2 flags; js := js flags; svg := svg flags; css := css flags;
         html := html flags |}
  | Format.woff2 =>
      {| svgFont := true; eot := eot flags; ttf := true; woff := woff flags;
         woff2 := true; js := js flags; svg := svg flags; css := css flags;
         html := html flags |}
  | Format.js =>
      {| svgFont := svgFont flags; eot := eot flags; ttf := ttf flags;
         woff := woff flags; woff2 := woff2 flags; js := true; svg := true;
         css := css flags; html := html flags |}
  | Format.svg =>
      {| svgFont := svgFont flags; eot := eot flags; ttf := ttf flags;
         woff := woff flags; woff2 := woff2 flags; js := js flags; svg := true;
         css := css flags; html := html flags |}
  | Format.css =>
      {| svgFont := svgFont flags; eot := eot flags; ttf := ttf flags;
         woff := woff flags; woff2 := woff2 flags; js := js flags;
         svg := svg flags; css := true; html := html flags |}
  | Format.html =>
      {| svgFont := svgFont flags; eot := eot flags; ttf := ttf flags;
         woff := woff flags; woff2 := woff2 flags; js := js flags;
         svg := svg flags; css := css flags; html := true |}
  end.

Definition of_formats (formats : list Format.t) : t :=
  fold_left select formats unset.

(** The flag that guards the generation of an artifact. *)
Definition get (flags : t) (artifact : Format.t) : bool :=
  match artifact with
  | Format.svgFont => svgFont flags
  | Format.ttf => ttf flags
  | Format.eot => eot flags
  | Format.woff => woff flags
  | Format.woff2 => woff2 flags
  | Format.js => js flags
  | Format.svg => svg flags
  | Format.css => css flags
  | Format.html => html flags
  end.
End Flags.

(** A computation of [generateIconFont]: the generator calls made so far,
    in order, and what came of them.  The list of calls is bookkeeping of
    the model; the program keeps no such list. *)
Definition gen (A : Type) : Type := (list Format.t * outcome A)%type.

#[global] Instance gen_ret : MRet gen := λ A a, ([], Ok a).
#[global] Instance gen_bind : MBind gen := λ A B k m,
  match m with
  | (calls, Ok a) => let '(calls', b) := k a in (calls ++ calls', b)
  | (calls, Throw e) => (calls, Throw e)
  end.

(** A call of the generator of [artifact]. *)
Definition generate {A : Type} (artifact : Format.t) (call : outcome A) : gen A :=
  ([artifact], call).

(** A step that calls no generator. *)
Definition quiet {A : Type} (step : outcome A) : gen A := ([], step).

Definition calls {A : Type} (run : gen A) : list Format.t := fst run.
Definition returned {A : Type} (run : gen A) : outcome A := snd run.

(** ** Text of the stylesheet *)

Module Text.
Definition newline : string := String (ascii_of_nat 10) EmptyString.
Definition tab : string := String (ascii_of_nat 9) EmptyString.
Definition doubleQuote : string := String (ascii_of_nat 34) EmptyString.
Definition backslash : string := String (ascii_of_nat 92) EmptyString.

(** [array.join(separator)] *)
Definition join (separator : string) (parts : list string) : string :=
  String.concat separator parts.

(** [n.toString(16)] of an integer *)
Definition toString16 (n : Z) : string :=
  let digits := NilZero.string_of_uint (N.to_hex_uint (Z.abs_N n)) in
  if n <? 0 then "-" +:+ digits else digits.

(** Does [text] contain [part]? *)
Fixpoint includes (text part : string) : bool :=
  String.prefix part text ||
  match text with
  | String _ rest => includes rest part
  | EmptyString => false
  end.
End Text.

Section Generators.
Context `{Externals}.

(** [generateSVGFont], up to the creation of the font stream: the defaults
    written into [options]. *)
Definition fontStreamOptions (icons : list SVGIcon) (options : IconFontOptions)
    : IconFontOptions :=
  let fontHeight := Options.fontHeight options ??! Num 1024 in
  let round := Options.round options ??! Num 10000000000000 in
  let centerHorizontally := Options.centerHorizontally options ??! true in
  let normalize := Options.normalize options ??! true in
  let descent := Options.descent options ??! Num 150 in
  let log := Options.log options ??! Options.emptyFunction in
  let normalize := if bool_decide (length icons = 0%nat) then true else normalize in
  {| Options.fontName := Options.fontName options;
     Options.fontId := Options.fontId options;
     Options.fontStyle := Options.fontStyle options;
     Options.fontWeight := Options.fontWeight options;
     Options.fixedWidth := Options.fixedWidth options;
     Options.centerHorizontally := Some centerHorizontally;
     Options.normalize := Some normalize;
     Options.fontHeight := Some fontHeight;
     Options.round := Some round;
     Options.descent := Some descent;
     Options.ascent := Options.ascent options;
     Options.metadata := Options.metadata options;
     Options.metadataProvider := Options.metadataProvider options;
     Options.log := Some log;
     Options.startUnicode := Options.startUnicode options;
     Options.prependUnicode := Options.prependUnicode options;
     Options.classNamePrefix := Options.classNamePrefix options;
     Options.ttf := Options.ttf options;
     Options.fileName := Options.fileName options;
     Options.hash := Options.hash options |}.

(** [generateSVGFont(icons, options)]: the [options] object as the call
    leaves it, and the text the promise resolves to. *)
Definition generateSVGFont (icons : list SVGIcon) (options : IconFontOptions)
    : IconFontOptions * outcome string :=
  let options := fontStreamOptions icons options in
  (options, SVGIcons2SVGFontStream options icons).

(** The rule [generateCSS] writes for one icon. *)
Definition iconRule (classNamePrefix : string) (icon : SVGIcon) : string :=
  "." +:+ (if bool_decide (classNamePrefix ≠ EmptyString)
           then classNamePrefix +:+ "-" else classNamePrefix)
  +:+ className icon +:+ ":before { content: " +:+ Text.doubleQuote
  +:+ Text.backslash +:+ Text.toString16 (unicode icon) +:+ Text.doubleQuote
  +:+ "; }".

(** The text of [generateCSS] before the rules of the icons. *)
Definition fontFace (baseName classNamePrefix hash : string) : string :=
  let line (text : string) := text +:+ Text.newline in
  let property (text : string) := Text.tab +:+ text +:+ Text.newline in
  line "@font-face {"
  +:+ property ("font-family: '" +:+ classNamePrefix +:+ "';")
  +:+ property ("src: url('" +:+ baseName +:+ ".eot?v=" +:+ hash +:+ "'); /* IE9 */")
  +:+ property ("src: url('" +:+ baseName +:+ ".eot?#iefix&v=" +:+ hash
                +:+ "') format('embedded-opentype') /* IE6-IE8 */, url('"
                +:+ baseName +:+ ".woff2?v=" +:+ hash
                +:+ "') format('woff2') /* Chrome, Firefox */, url('"
                +:+ baseName +:+ ".woff?v=" +:+ hash
                +:+ "') format('woff') /* Chrome, Firefox */, url('"
                +:+ baseName +:+ ".ttf?v=" +:+ hash
                +:+ "') format('truetype') /* Chrome, Firefox, Opera, Safari, Android, iOS 4.2+ */, url('"
                +:+ baseName +:+ ".svg?v=" +:+ hash
                +:+ "#regular') format('svg') /* iOS 4.1- */;")
  +:+ property "font-weight: normal;"
  +:+ property "font-style: normal;"
  +:+ line "}"
  +:+ line ("." +:+ classNamePrefix +:+ " {")
  +:+ property "display: inline-block;"
  +:+ property ("font-family: '" +:+ classNamePrefix +:+ "';")
  +:+ property "font-size: inherit;"
  +:+ property "font-weight: normal;"
  +:+ property "font-style: normal;"
  +:+ property "font-variant: normal;"
  +:+ property "line-height: 1;"
  +:+ property "text-decoration: none !important;"
  +:+ property "text-rendering: auto;"
  +:+ property "text-transform: none;"
  +:+ property "-webkit-font-smoothing: antialiased;"
  +:+ property "-moz-osx-font-smoothing: grayscale;"
  +:+ property "user-select: none;"
  +:+ line "}".

Definition generateCSS (icons : list SVGIcon) (options : IconFontOptions) : string :=
  let baseName :=
    getName (Options.fileName options ??! Options.fontName options ??! "icon") in
  let classNamePrefix := Options.classNamePrefix options ??! baseName in
  let hash := Options.hash options ??! pretty (length icons) in
  fontFace baseName classNamePrefix hash
  +:+ Text.join Text.newline (map (iconRule classNamePrefix) icons).

End Generators.

Section Orchestrator.
Context `{Externals}.

Definition generateIconFont (result : CompileIconFontResult)
    (formats : list Format.t) (options : IconFontOptions)
    : gen CompileIconFontResult :=
  let flags := Flags.of_formats formats in
  '(result, options) ←
    (if Flags.svgFont flags then
       let '(options, font) := generateSVGFont (icons result) options in
       value ← generate Format.svgFont font;
       mret (set_svgFont result value, options)
     else mret (result, options));
  result ←
    (if Flags.ttf flags then
       value ← generate Format.ttf (svg2ttf (svgFont result) (Options.ttf options));
       mret (set_ttf result value)
     else mret result);
  result ←
    (if Flags.eot flags then
       value ← generate Format.eot (ttf2eot (ttf result));
       mret (set_eot result value)
     else mret result);
  result ←
    (if Flags.woff flags then
       value ← generate Format.woff (ttf2woff (ttf result) options);
       mret (set_woff result value)
     else mret result);
  result ←
    (if Flags.woff2 flags then
       value ← generate Format.woff2 (wawoff2_compress (ttf result));
       mret (set_woff2 result value)
     else mret result);
  result ←
    (if Flags.svg flags then
       value ← generate Format.svg (generateSVGSprite (icons result) options);
       mret (set_svg result value)
     else mret result);
  result ←
    (if Flags.js flags then
       value ← generate Format.js (generateJS (svg result) options);
       mret (set_js result value)
     else mret result);
  result ←
    (if Flags.css flags then
       value ← generate Format.css (Ok (generateCSS (icons result) options));
       mret (set_css result value)
     else mret result);
  (if Flags.html flags then
     value ← generate Format.html (generateHTML (icons result) options);
     mret (set_html result value)
   else mret result).

(** The default of the [formats] parameter of both entry points. *)
Definition defaultFormats : list Format.t :=
  [Format.eot; Format.ttf; Format.woff; Format.woff2; Format.css; Format.html].

Definition compileIconFont (content path : string)
    (formats : option (list Format.t)) (options : option IconFontOptions)
    (fs : FileSystem) : gen CompileIconFontResult :=
  let formats := formats ??! defaultFormats in
  rootNode ← quiet (XmlDocument content);
  result ← quiet (collectIconFont rootNode path options fs);
  generateIconFont result formats (manifestOptions rootNode path result options).

Definition compileIconFontFromSources (sources : list Source.t)
    (formats : option (list Format.t)) (options : option IconFontOptions)
    (fs : FileSystem) : gen CompileIconFontResult :=
  let formats := formats ??! defaultFormats in
  result ← quiet (collectSources sources options fs);
  generateIconFont result formats
    (Options.spread (options ??! Options.empty)
       {| Options.fontName := None; Options.fontId := None;
          Options.fontStyle := None; Options.fontWeight := None;
          Options.fixedWidth := None; Options.centerHorizontally := None;
          Options.normalize := None; Options.fontHeight := None;
          Options.round := None; Options.descent := None;
          Options.ascent := None; Options.metadata := None;
          Options.metadataProvider := None; Options.log := None;
          Options.startUnicode := Some (startUnicode result);
          Options.prependUnicode := None; Options.classNamePrefix := None;
          Options.ttf := None; Options.fileName := None;
          Options.hash := None |}).

End Orchestrator.

(** ** Vocabulary of the properties *)

(** The three identities are pairwise different over the icon list. *)
Definition identities_distinct (result : CompileIconFontResult) : Prop :=
  NoDup (map iconName (icons result))
  ∧ NoDup (map className (icons result))
  ∧ NoDup (map unicode (icons result)).

(** Every identity of a listed icon is in its registry set. *)
Definition identities_registered (result : CompileIconFontResult) : Prop :=
  ∀ icon : SVGIcon, icon ∈ icons result →
    iconName icon ∈ iconNames result
    ∧ className icon ∈ classNames result
    ∧ unicode icon ∈ unicodes result.

(** No registry set of [before] has lost an element in [after]. *)
Definition registry_grows (before after : CompileIconFontResult) : Prop :=
  iconNames before ⊆ iconNames after
  ∧ classNames before ⊆ classNames after
  ∧ unicodes before ⊆ unicodes after.

(** [after] has the icons and the registry sets of [before]. *)
Definition registry_kept (before after : CompileIconFontResult) : Prop :=
  icons after = icons before
  ∧ iconNames after = iconNames before
  ∧ classNames after = classNames before
  ∧ unicodes after = unicodes before.

(** [after] is [before] with one more icon, whose three identities were
    free in [before] and are the only additions to the registry sets. *)
Definition registry_extended (before after : CompileIconFontResult) : Prop :=
  ∃ icon : SVGIcon,
    icons after = icons before ++ [icon]
    ∧ (iconName icon ∉ iconNames before)
    ∧ iconNames after = {[iconName icon]} ∪ iconNames before
    ∧ (className icon ∉ classNames before)
    ∧ classNames after = {[className icon]} ∪ classNames before
    ∧ (unicode icon ∉ unicodes before)
    ∧ unicodes after = {[unicode icon]} ∪ unicodes before.

(** The output slots of a result. *)
Definition outputs (result : CompileIconFontResult) :=
  (svgFont result, ttf result, eot result, woff result, woff2 result,
   svg result, js result, css result, html result).

Definition registry_sound (result : CompileIconFontResult) : Prop :=
  identities_distinct result ∧ identities_registered result.

(** One step of collection: the output slots are not touched, and the
    registry is kept or extended by one icon. *)
Definition collection_step (before after : CompileIconFontResult) : Prop :=
  outputs after = outputs before
  ∧ (registry_kept before after ∨ registry_extended before after).

(** The order in which [generateIconFont] reaches the generators. *)
Definition generationOrder : list Format.t :=
  [Format.svgFont; Format.ttf; Format.eot; Format.woff; Format.woff2;
   Format.svg; Format.js; Format.css; Format.html].

(** The formats a requested format stands for: itself and the formats it
    is derived from ([ttf] from the font container, [eot], [woff] and
    [woff2] from [ttf], [js] from the sprite). *)
Definition impliedBy (format : Format.t) : list Format.t :=
  match format with
  | Format.svgFont => [Format.svgFont]
  | Format.ttf => [Format.ttf; Format.svgFont]
  | Format.eot => [Format.eot; Format.ttf; Format.svgFont]
  | Format.woff => [Format.woff; Format.ttf; Format.svgFont]
  | Format.woff2 => [Format.woff2; Format.ttf; Format.svgFont]
  | Format.js => [Format.js; Format.svg]
  | Format.svg => [Format.svg]
  | Format.css => [Format.css]
  | Format.html => [Format.html]
  end.

(** An artifact is activated by a request when some requested format
    implies it. *)
Definition activated (formats : list Format.t) (artifact : Format.t) : Prop :=
  ∃ format : Format.t, format ∈ formats ∧ artifact ∈ impliedBy format.

Section Generated.
Context `{Externals}.

(** What a successful run of [generateIconFont] under [flags] leaves in
    [after]: every flagged slot holds what its generator returned on the
    slots it reads, every other slot is as it was, and nothing else of the
    result has changed. *)
Definition generated (flags : Flags.t) (result : CompileIconFontResult)
    (options : IconFontOptions) (after : CompileIconFontResult) : Prop :=
  let options' :=
    if Flags.svgFont flags then fontStreamOptions (icons result) options
    else options in
  (if Flags.svgFont flags
   then ∃ value, svgFont after = Some value
          ∧ SVGIcons2SVGFontStream options' (icons result) = Ok value
   else svgFont after = svgFont result)
  ∧ (if Flags.ttf flags
     then ∃ value, ttf after = Some value
            ∧ svg2ttf (svgFont after) (Options.ttf options) = Ok value
     else ttf after = ttf result)
  ∧ (if Flags.eot flags
     then ∃ value, eot after = Some value ∧ ttf2eot (ttf after) = Ok value
     else eot after = eot result)
  ∧ (if Flags.woff flags
     then ∃ value, woff after = Some value
            ∧ ttf2woff (ttf after) options' = Ok value
     else woff after = woff result)
  ∧ (if Flags.woff2 flags
     then ∃ value, woff2 after = Some value
            ∧ wawoff2_compress (ttf after) = Ok value
     else woff2 after = woff2 result)
  ∧ (if Flags.svg flags
     then ∃ value, svg after = Some value
            ∧ generateSVGSprite (icons result) options' = Ok value
     else svg after = svg result)
  ∧ (if Flags.js flags
     then ∃ value, js after = Some value
            ∧ generateJS (svg after) options' = Ok value
     else js after = js result)
  ∧ (if Flags.css flags
     then css after = Some (generateCSS (icons result) options')
     else css after = css result)
  ∧ (if Flags.html flags
     then ∃ value, html after = Some value
            ∧ generateHTML (icons result) options' = Ok value
     else html after = html result)
  ∧ registry_kept result after
  ∧ startUnicode after = startUnicode result
  ∧ dependencies after = dependencies result
  ∧ globDependencies after = globDependencies result.

End Generated.

Section Delivered.
Context `{Externals}.

(** The generators that a request activates return for these icons: the
    font stream under whatever options it is given, and each converter for
    what the generator it depends on returned. *)
Definition delivered (formats : list Format.t) (icons : list SVGIcon) : Prop :=
  (activated formats Format.svgFont →
   ∀ streamOptions, ∃ font,
     SVGIcons2SVGFontStream streamOptions icons = Ok font
     ∧ (activated formats Format.ttf →
        ∀ ttfOptions, ∃ bytes,
          svg2ttf (Some font) ttfOptions = Ok bytes
          ∧ (activated formats Format.eot →
             ∃ value, ttf2eot (Some bytes) = Ok value)
          ∧ (activated formats Format.woff →
             ∀ options, ∃ value, ttf2woff (Some bytes) options = Ok value)
          ∧ (activated formats Format.woff2 →
             ∃ value, wawoff2_compress (Some bytes) = Ok value)))
  ∧ (activated formats Format.svg →
     ∀ options, ∃ sprite,
       generateSVGSprite icons options = Ok sprite
       ∧ (activated formats Format.js →
          ∀ options', ∃ script, generateJS (Some sprite) options' = Ok script))
  ∧ (activated formats Format.html →
     ∀ options, ∃ preview, generateHTML icons options = Ok preview).

(** What the font codecs return is never empty. *)
Definition dataNotEmpty : Prop :=
  (∀ options icons font,
     SVGIcons2SVGFontStream options icons = Ok font → font ≠ EmptyString)
  ∧ (∀ font ttfOptions bytes, svg2ttf font ttfOptions = Ok bytes → bytes ≠ [])
  ∧ (∀ bytes value, ttf2eot bytes = Ok value → value ≠ [])
  ∧ (∀ bytes options value, ttf2woff bytes options = Ok value → value ≠ [])
  ∧ (∀ bytes value, wawoff2_compress bytes = Ok value → value ≠ []).

End Delivered.

(** An icon made from a node that carries [unicode="0x41"]. *)
Definition asks0x41 (icon : SVGIcon) : Prop :=
  ∃ node : SVGNode,
    object icon = OfNode node ∧ attribute node "unicode" = Some "0x41".

(** Wherever an icon that asks for 0x41 is listed, 0x41 belongs to it or to
    an icon listed before it. *)
Definition served0x41 (result : CompileIconFontResult) : Prop :=
  ∀ before icon rest,
    icons result = before ++ icon :: rest →
    asks0x41 icon → 0x41 ∈ map unicode (before ++ [icon]).

(** A collection step that, when it lists an icon that asks for 0x41,
    leaves 0x41 registered. *)
Definition serving_step (before after : CompileIconFontResult) : Prop :=
  collection_step before after
  ∧ ∀ icon, icons after = icons before ++ [icon] →
      asks0x41 icon → 0x41 ∈ unicodes after.

(** The rule for class [warn] at U+EA01 spelled with [::before]. *)
Definition ruleWithDoubleColon : string :=
  ".warn::before { content: " +:+ Text.doubleQuote +:+ Text.backslash +:+ "ea01"
  +:+ Text.doubleQuote +:+ "; }".

(** The rule as [generateCSS] writes it, with [:before]. *)
Definition ruleWithSingleColon : string :=
  ".warn:before { content: " +:+ Text.doubleQuote +:+ Text.backslash +:+ "ea01"
  +:+ Text.doubleQuote +:+ "; }".

(** ** Vocabulary of further properties *)

(** The registry sets hold the identities of the listed icons and nothing
    else. *)
Definition registry_exact (result : CompileIconFontResult) : Prop :=
  iconNames result = list_to_set (map iconName (icons result))
  ∧ classNames result = list_to_set (map className (icons result))
  ∧ unicodes result = list_to_set (map unicode (icons result)).

(** The path a source stands for. *)
Definition sourcePath (source : Source.t) : string :=
  match source with
  | Source.Path path => path
  | Source.Object source => Source.path source
  end.

(** Where the cursor of [compileIconFontFromSources] starts: at the
    caller's [startUnicode], and at 0xEA01 when there is none or it is
    NaN. *)
Definition sourcesStart (options : option IconFontOptions) : Z :=
  match options ≫= Options.startUnicode with
  | Some (Num start) => start
  | _ => 0xea01
  end.

(** A source given as an object. *)
Definition isObject (source : Source.t) : Prop :=
  match source with
  | Source.Path _ => False
  | Source.Object _ => True
  end.

(** Two sources that differ at most in the properties [iconName],
    [unicode], [autoUnicode], [className] and [title] of a source object. *)
Definition sameText (left right : Source.t) : Prop :=
  match left, right with
  | Source.Path l, Source.Path r => l = r
  | Source.Object l, Source.Object r =>
      Source.path l = Source.path r ∧ Source.content l = Source.content r
  | _, _ => False
  end.

(** A source whose text has to be read from the file system. *)
Definition readsFile (source : Source.t) : Prop :=
  match source with
  | Source.Path _ => True
  | Source.Object source => Source.content source = None
  end.

Section Visited.
Context `{Externals}.

(** The files a child of the manifest root makes the compiler read: those a
    pattern matches, the one a plain [src] resolves to, none for an inline
    icon or for a child that is not an [svg]. *)
Definition visitedFiles (fs : FileSystem) (path : string) (childNode : SVGNode)
    : list string :=
  if decide (name childNode = Some "svg") then
    match attribute childNode "src" with
    | None => []
    | Some src =>
        if isGlob src then
          match glob fs src (getDir path) with
          | Ok fullPaths => fullPaths
          | Throw _ => []
          end
        else [resolvePath path src]
    end
  else [].

(** The pattern a child of the manifest root makes the compiler expand,
    with the directory it is expanded in. *)
Definition visitedGlobs (path : string) (childNode : SVGNode)
    : list (string * string) :=
  if decide (name childNode = Some "svg") then
    match attribute childNode "src" with
    | None => []
    | Some src => if isGlob src then [(src, getDir path)] else []
    end
  else [].

End Visited.

(** ** A concrete environment

    One choice of collaborators on which the compiler can be run: paths use
    [/], the parser knows two manifests, numbers are unsigned decimal
    integers, the codecs return fixed bytes. *)

Module Demo.

(** The part of a path after its last [/]. *)
Fixpoint baseName (path current : string) : string :=
  match path with
  | String "/" rest => baseName rest EmptyString
  | String c rest => baseName rest (current +:+ String c EmptyString)
  | EmptyString => current
  end.

(** The part of a path up to its last [/]. *)
Fixpoint dirName (path seen current : string) : string :=
  match path with
  | String "/" rest => dirName rest (seen +:+ current) "/"
  | String c rest => dirName rest seen (current +:+ String c EmptyString)
  | EmptyString => seen
  end.

(** A file name up to its last [.] (all of it when there is none). *)
Fixpoint stem (fileName seen current : string) (dotted : bool) : string :=
  match fileName with
  | String "." rest =>
      stem rest (if dotted then seen +:+ current else current) "." true
  | String c rest => stem rest seen (current +:+ String c EmptyString) dotted
  | EmptyString => if dotted then seen else current
  end.

Definition nameOf (path : string) : string :=
  stem (baseName path EmptyString) EmptyString EmptyString false.

(** The attributes of a tag as text. *)
Definition render (attrs : list (string * string)) : string :=
  String.concat EmptyString
    (map (λ '(key, value),
            " " +:+ key +:+ "=" +:+ Text.doubleQuote +:+ value
            +:+ Text.doubleQuote) attrs).

Definition svgNode (attrs : list (string * string)) : SVGNode :=
  Node (Some "svg") (Some (list_to_map attrs)) (Some [])
       ("<svg" +:+ render attrs +:+ "/>").

Definition iconfontNode (attrs : list (string * string))
    (childNodes : list SVGNode) : SVGNode :=
  Node (Some "iconfont") (Some (list_to_map attrs)) (Some childNodes)
       ("<iconfont" +:+ render attrs +:+ ">"
        +:+ String.concat EmptyString
              (map (λ childNode,
                      match childNode with Node _ _ _ text => text end)
                   childNodes)
        +:+ "</iconfont>").

(** [<iconfont><svg name="a"/><svg name="a"/></iconfont>] *)
Definition twoNamedA : SVGNode :=
  iconfontNode [] [svgNode [("name", "a")]; svgNode [("name", "a")]].

(** [<iconfont startUnicode="0x40"><svg/><svg/><svg unicode="0x41"/><svg/></iconfont>] *)
Definition cursorAt41 : SVGNode :=
  iconfontNode [("startUnicode", "0x40")]
    [svgNode []; svgNode []; svgNode [("unicode", "0x41")]; svgNode []].

(** A parser that knows the text of these two manifests and of the empty
    icon. *)
Definition parse (content : string) : outcome SVGNode :=
  if decide (content = match twoNamedA with Node _ _ _ text => text end)
  then Ok twoNamedA
  else if decide (content = match cursorAt41 with Node _ _ _ text => text end)
  then Ok cursorAt41
  else if decide (content = "<svg/>") then Ok (svgNode [])
  else Throw "Invalid XML".

(** The text of the manifest [twoNamedA]. *)
Definition twoNamedAText : string :=
  match twoNamedA with Node _ _ _ text => text end.

Definition firstCodePoint (text : string) : option jsnum :=
  match text with
  | String c _ => Some (Num (Z.of_N (N_of_ascii c)))
  | EmptyString => None
  end.

(** The value of the decimal digits a text begins with, NaN when it begins
    with none. *)
Fixpoint decimal (text : string) (value : option Z) : jsnum :=
  match text with
  | String c rest =>
      let n := Z.of_N (N_of_ascii c) in
      if (48 <=? n) && (n <=? 57)
      then decimal rest (Some (10 * (value ??! 0) + (n - 48)))
      else match value with Some z => Num z | None => NaN end
  | EmptyString => match value with Some z => Num z | None => NaN end
  end.

(** A hundredth, for the whole hundreds (the others have a fraction). *)
Definition hundredth (x : jsnum) : jsnum :=
  match x with
  | Num z => if z mod 100 =? 0 then Num (z / 100) else NaN
  | NaN => NaN
  end.

Definition bytes : Buffer := [Byte.x00; Byte.x01; Byte.x00; Byte.x00].

#[export] Instance externals : Externals := {|
  isGlob pattern := Text.includes pattern "*";
  getDir path := dirName path EmptyString EmptyString;
  getName := nameOf;
  resolvePath path src := dirName path EmptyString EmptyString +:+ "/" +:+ src;
  XmlDocument := parse;
  parseFloat text := decimal text None;
  divideBy100 := hundredth;
  codePointAt0 := firstCodePoint;
  SVGIcons2SVGFontStream _ _ := Ok "<svg><defs><font/></defs></svg>";
  svg2ttf _ _ := Ok bytes;
  ttf2eot _ := Ok bytes;
  ttf2woff _ _ := Ok bytes;
  wawoff2_compress _ := Ok bytes;
  generateSVGSprite _ _ := Ok "<svg></svg>";
  generateJS _ _ := Ok "!function(){}();";
  generateHTML _ _ := Ok "<div></div>"
|}.

(** A file system with one icon file. *)
Definition fs : FileSystem := {|
  readText path :=
    if decide (path = "icons/home.svg") then Ok "<svg/>" else Throw "ENOENT";
  glob pattern cwd := Ok ["icons/home.svg"]
|}.

(** The result a collection returned ([newResult NaN] for one that
    threw). *)
Definition value (run : outcome CompileIconFontResult) : CompileIconFontResult :=
  match run with Ok result => result | Throw _ => newResult NaN end.

(** Two automatic icons from 0x40 on, then an icon with [unicode="0x41"]:
    the cursor stands at 0x41, and 0x40, 0x41 and 0x42 are taken. *)
Definition afterExplicit : CompileIconFontResult :=
  value (processChildren
           [svgNode []; svgNode []; svgNode [("unicode", "0x41")]]
           "icons.iconfont" (newResult (Num 0x40)) fs).

(** The icon the node with [unicode="0x41"] has become in
    [afterExplicit]. *)
Definition third : SVGIcon :=
  {| object := OfNode (svgNode [("unicode", "0x41")]); iconName := "icons-3";
     unicode := 0x42; autoUnicode := false; className := "icons-3";
     title := Some "icons-3" |}.

(** The icon the next [svg] node without attributes becomes after
    [afterExplicit]. *)
Definition fourth : SVGIcon :=
  {| object := OfNode (svgNode []); iconName := "icons-4"; unicode := 0x43;
     autoUnicode := true; className := "icons-4"; title := Some "icons-4" |}.

(** A file system in which every path holds the empty icon. *)
Definition everyFile : FileSystem := {|
  readText path := Ok "<svg/>";
  glob pattern cwd := Ok ["icons/home.svg"; "icons/user.svg"]
|}.

(** A source object for [path] with [content]. *)
Definition sourceObject (path : string) (content : option string) : Source.t :=
  Source.Object
    {| Source.path := path; Source.content := content; Source.iconName := None;
       Source.unicode := None; Source.autoUnicode := None;
       Source.className := None; Source.title := None |}.

(** The same, with the name [first] and the code point 0x41 asked for. *)
Definition sourceObjectNamed (path : string) (content : option string)
    : Source.t :=
  Source.Object
    {| Source.path := path; Source.content := content;
       Source.iconName := Some "first"; Source.unicode := Some (Num 0x41);
       Source.autoUnicode := None; Source.className := Some "first";
       Source.title := None |}.

(** A pattern, an inline icon and a plain file. *)
Definition mixedChildren : list SVGNode :=
  [svgNode [("src", "*.svg")]; svgNode []; svgNode [("src", "home.svg")]].

(** Three source objects for files called [home.svg]. *)
Definition threeHomes : list Source.t :=
  [sourceObject "a/home.svg" (Some "<svg/>");
   sourceObject "b/home.svg" None;
   sourceObjectNamed "c/home.svg" (Some "<svg/>")].

(** A file system without files. *)
Definition noFile : FileSystem := {|
  readText path := Throw "ENOENT";
  glob pattern cwd := Ok []
|}.

(** Collaborators like [externals], with a font stream that fails. *)
Definition brokenStream : Externals := {|
  isGlob pattern := Text.includes pattern "*";
  getDir path := dirName path EmptyString EmptyString;
  getName := nameOf;
  resolvePath path src := dirName path EmptyString EmptyString +:+ "/" +:+ src;
  XmlDocument := parse;
  parseFloat text := decimal text None;
  divideBy100 := hundredth;
  codePointAt0 := firstCodePoint;
  SVGIcons2SVGFontStream _ _ := Throw "Invalid glyph";
  svg2ttf _ _ := Ok bytes;
  ttf2eot _ := Ok bytes;
  ttf2woff _ _ := Ok bytes;
  wawoff2_compress _ := Ok bytes;
  generateSVGSprite _ _ := Ok "<svg></svg>";
  generateJS _ _ := Ok "!function(){}();";
  generateHTML _ _ := Ok "<div></div>"
|}.

(** An icon with class [warn] at U+EA01. *)
Definition warn : SVGIcon :=
  {| object := OfNode (svgNode [("class", "warn")]); iconName := "warn";
     unicode := 0xea01; autoUnicode := true; className := "warn";
     title := Some "warn" |}.

(** Options whose only property is a [classNamePrefix] that is the empty
    string. *)
Definition emptyPrefix : IconFontOptions :=
  Options.spread Options.empty
    {| Options.fontName := None; Options.fontId := None;
       Options.fontStyle := None; Options.fontWeight := None;
       Options.fixedWidth := None; Options.centerHorizontally := None;
       Options.normalize := None; Options.fontHeight := None;
       Options.round := None; Options.descent := None;
       Options.ascent := None; Options.metadata := None;
       Options.metadataProvider := None; Options.log := None;
       Options.startUnicode := None; Options.prependUnicode := None;
       Options.classNamePrefix := Some EmptyString; Options.ttf := None;
       Options.fileName := None; Options.hash := None |}.

End Demo.

(** * Properties *)

(** ** The identifier registry *)

Section RegistryFacts.

(** Where the probing loop stops: at the first counter from [i] on whose
    candidate is free. *)
Lemma probe_stops content (set : gset string) :
  ∀ (i : N) (acc : Acc (probe_next content set) i),
    ∃ k : N, (i ≤ k)%N
      ∧ probe content set i acc = candidate content k
      ∧ (candidate content k ∉ set)
      ∧ ∀ j : N, (i ≤ j < k)%N → candidate content j ∈ set.
Proof.
  fix IH 2. intros i [next]. simpl.
  destruct (decide (candidate content i ∈ set)) as [Hin|Hout].
  - destruct (IH (N.succ i) (next (N.succ i) (conj Hin eq_refl)))
      as (k & Hle & Heq & Hfree & Htaken).
    exists k. repeat split; [lia | done | done |].
    intros j Hj. destruct (decide (j = i)) as [->|Hne]; [done|].
    apply Htaken. lia.
  - exists i. repeat split; [lia | done |]. intros j Hj. lia.
Qed.

(** Where the scanning loop stops: at the first code point from
    [startUnicode] on that is free. *)
Lemma scan_stops (set : gset Z) :
  ∀ (startUnicode : Z) (acc : Acc (scan_next set) startUnicode),
    startUnicode ≤ scan set startUnicode acc
    ∧ (scan set startUnicode acc ∉ set)
    ∧ ∀ k : Z, startUnicode ≤ k < scan set startUnicode acc → k ∈ set.
Proof.
  fix IH 2. intros i [next]. simpl.
  destruct (decide (i ∈ set)) as [Hin|Hout].
  - destruct (IH (i + 1) (next (i + 1) (conj Hin eq_refl)))
      as (Hle & Hfree & Htaken).
    repeat split; [lia | done |].
    intros k Hk. destruct (decide (k = i)) as [->|Hne]; [done|].
    apply Htaken. lia.
  - repeat split; [lia | done |]. intros k Hk. lia.
Qed.

Lemma getUnique_set content (set : gset string) :
  snd (getUnique content set) = {[fst (getUnique content set)]} ∪ set.
Proof. reflexivity. Qed.

Lemma getUnique_fresh content (set : gset string) :
  fst (getUnique content set) ∉ set.
Proof.
  unfold getUnique. simpl. destruct (decide (content ∈ set)); [|done].
  destruct (probe_stops content set 2 (wf_guard 32 (probe_next_wf content set) 2%N))
    as (k & _ & Heq & Hfree & _).
  unfold probe_from. by rewrite Heq.
Qed.

Lemma getUniqueUnicode_set candidate (set : gset Z) :
  snd (getUniqueUnicode candidate set) = {[fst (getUniqueUnicode candidate set)]} ∪ set.
Proof. reflexivity. Qed.

Lemma getUniqueUnicode_least (start : Z) (set : gset Z) :
  start ≤ fst (getUniqueUnicode (Num start) set)
  ∧ (fst (getUniqueUnicode (Num start) set) ∉ set)
  ∧ ∀ k : Z, start ≤ k < fst (getUniqueUnicode (Num start) set) → k ∈ set.
Proof.
  unfold getUniqueUnicode. simpl. destruct (decide (start ∈ set)).
  - apply (scan_stops set start (wf_guard 32 (scan_next_wf set) start)).
  - repeat split; [lia | done |]. intros k Hk. lia.
Qed.

Lemma getUniqueUnicode_fresh candidate (set : gset Z) :
  fst (getUniqueUnicode candidate set) ∉ set.
Proof. destruct candidate; apply getUniqueUnicode_least. Qed.

Lemma getUnique_free content (set : gset string) :
  content ∉ set → fst (getUnique content set) = content.
Proof. intros Hfree. unfold getUnique. simpl. by rewrite decide_False. Qed.

Lemma getUnique_taken content (set : gset string) :
  content ∈ set →
  ∃ i : N, (2 ≤ i)%N
    ∧ fst (getUnique content set) = candidate content i
    ∧ (candidate content i ∉ set)
    ∧ ∀ j : N, (2 ≤ j < i)%N → candidate content j ∈ set.
Proof.
  intros Htaken. unfold getUnique. simpl. rewrite decide_True by done.
  apply (probe_stops content set 2 (wf_guard 32 (probe_next_wf content set) 2%N)).
Qed.

Lemma getUnique_second content (set : gset string) :
  content ∈ set → content +:+ "-2" ∉ set →
  fst (getUnique content set) = content +:+ "-2".
Proof.
  intros Htaken Hfree.
  destruct (getUnique_taken content set Htaken) as (i & Hle & -> & _ & Hbelow).
  destruct (decide (i = 2%N)) as [->|Hne]; [done|].
  destruct Hfree. apply (Hbelow 2%N). lia.
Qed.

Lemma getUnique_pair content (set : gset string) value set' :
  getUnique content set = (value, set') → (value ∉ set) ∧ set' = {[value]} ∪ set.
Proof.
  intros Heq. pose proof (getUnique_fresh content set) as Hfresh.
  pose proof (getUnique_set content set) as Hset.
  rewrite Heq in Hfresh, Hset. done.
Qed.

Lemma getUniqueUnicode_pair candidate (set : gset Z) value set' :
  getUniqueUnicode candidate set = (value, set') →
  (value ∉ set) ∧ set' = {[value]} ∪ set.
Proof.
  intros Heq. pose proof (getUniqueUnicode_fresh candidate set) as Hfresh.
  pose proof (getUniqueUnicode_set candidate set) as Hset.
  rewrite Heq in Hfresh, Hset. done.
Qed.

End RegistryFacts.

(** C2. [getUnique] returns a free candidate unchanged and registers it;
    for a taken candidate it returns [candidate + "-" + i] for the smallest
    [i >= 2] whose string is free and registers that.  Either way the
    returned string was not in the set when the call was made. *)
Theorem getUnique_allocates (content : string) (set : gset string) :
  snd (getUnique content set) = {[fst (getUnique content set)]} ∪ set
  ∧ (fst (getUnique content set) ∉ set)
  ∧ (content ∉ set → fst (getUnique content set) = content)
  ∧ (content ∈ set →
     ∃ i : N, (2 ≤ i)%N
       ∧ fst (getUnique content set) = content +:+ "-" +:+ pretty i
       ∧ (content +:+ "-" +:+ pretty i ∉ set)
       ∧ ∀ j : N, (2 ≤ j < i)%N → content +:+ "-" +:+ pretty j ∈ set).
Proof.
  split; [apply getUnique_set|]. split; [apply getUnique_fresh|].
  split; [apply getUnique_free | apply getUnique_taken].
Qed.

(** ** The scan in double arithmetic *)

(** Up to 2^53 the increment of a double is that of the integers. *)
Lemma increment_exact (x : Z) :
  - 2 ^ 53 ≤ x < 2 ^ 53 → Double.increment x = x + 1.
Proof.
  intros Hx. unfold Double.increment, Double.round.
  destruct (Z.ltb_spec (Z.abs (x + 1)) (2 ^ 53)) as [|Hbig]; [done|].
  assert (x + 1 = 2 ^ 53) as -> by lia. reflexivity.
Qed.

(** Over code points that are all taken and exact the loop of the program
    walks from one to the next. *)
Lemma scan_turns_exact (set : gset Z) (value : Z) :
  (∀ code, code ∈ set → - 2 ^ 53 ≤ code < 2 ^ 53) →
  ∀ (count : nat) (startUnicode : Z),
    value = startUnicode + Z.of_nat count →
    (∀ k, startUnicode ≤ k < value → k ∈ set) →
    rtc (scan_turn set) startUnicode value.
Proof.
  intros Hexact count. induction count as [|count IH]; intros i Heq Htaken.
  - replace value with i by lia. apply rtc_refl.
  - apply (rtc_l _ _ (i + 1)).
    + assert (i ∈ set) as Hin by (apply Htaken; lia).
      split; [done|]. symmetry. apply increment_exact, Hexact, Hin.
    + apply IH; [lia|]. intros k Hk. apply Htaken. lia.
Qed.

(** When every registered code point is in the exact range, the loop of
    the program is left with the code point [getUniqueUnicode] returns. *)
Lemma scan_leaves_exact (set : gset Z) (start : Z) :
  (∀ code, code ∈ set → - 2 ^ 53 ≤ code < 2 ^ 53) →
  scan_leaves set start (fst (getUniqueUnicode (Num start) set)).
Proof.
  intros Hexact.
  destruct (getUniqueUnicode_least start set) as (Hle & Hfree & Htaken).
  split; [|done].
  apply (scan_turns_exact set _ Hexact
           (Z.to_nat (fst (getUniqueUnicode (Num start) set) - start)));
    [lia | done].
Qed.

(** A registered number that its increment does not move is never left. *)
Lemma scan_stuck (set : gset Z) (startUnicode : Z) :
  startUnicode ∈ set → Double.increment startUnicode = startUnicode →
  ∀ value, rtc (scan_turn set) startUnicode value → value = startUnicode.
Proof.
  intros Hin Hfix value Hrun.
  induction Hrun as [|i j k [_ Hj] _ IH]; [done|].
  rewrite Hfix in Hj. subst j. by apply IH.
Qed.

(** Where the doubles thin out: 2^53 - 1 is followed by 2^53, which its
    increment does not move; 2^53 + 2 is moved to 2^53 + 4, which is not
    moved. *)
Example increments_around_2_53 :
  Double.increment (2 ^ 53 - 1) = 2 ^ 53
  ∧ Double.increment (2 ^ 53) = 2 ^ 53
  ∧ Double.increment (2 ^ 53 + 2) = 2 ^ 53 + 4
  ∧ Double.increment (2 ^ 53 + 4) = 2 ^ 53 + 4.
Proof. by vm_compute. Qed.

(** C3, as stated, fails for large numbers: the increment of the double
    2^53 is 2^53 again, so with 2^53 registered the loop of
    [getUniqueUnicode] entered at 2^53 is never left and the function does
    not return. *)
Lemma getUniqueUnicode_stays_at_2_53 :
  ¬ ∃ value : Z, scan_leaves {[2 ^ 53]} (2 ^ 53) value.
Proof.
  intros (value & Hrun & Hfree). apply Hfree.
  rewrite (scan_stuck {[2 ^ 53]} (2 ^ 53)) with (value := value); try done.
  all: by apply elem_of_singleton.
Qed.

(** C3, amended. On a set whose code points all lie from -2^53 to 2^53 - 1,
    [getUniqueUnicode] treats a NaN candidate as 0xEA01, returns the smallest
    code point from the candidate on that is not in the set, and adds it to
    the set; and the loop of the program, in double arithmetic, is left with
    exactly that code point, so the function returns for every candidate. *)
Theorem getUniqueUnicode_allocates (set : gset Z) :
  (∀ code, code ∈ set → - 2 ^ 53 ≤ code < 2 ^ 53) →
  getUniqueUnicode NaN set = getUniqueUnicode (Num 0xea01) set
  ∧ (∀ start : Z,
       start ≤ fst (getUniqueUnicode (Num start) set)
       ∧ (fst (getUniqueUnicode (Num start) set) ∉ set)
       ∧ (∀ k : Z, start ≤ k < fst (getUniqueUnicode (Num start) set) → k ∈ set)
       ∧ scan_leaves set start (fst (getUniqueUnicode (Num start) set)))
  ∧ (∀ candidate : jsnum,
       snd (getUniqueUnicode candidate set)
       = {[fst (getUniqueUnicode candidate set)]} ∪ set).
Proof.
  intros Hexact. split; [reflexivity|]. split.
  - intros start.
    destruct (getUniqueUnicode_least start set) as (Hle & Hfree & Htaken).
    repeat match goal with |- _ ∧ _ => split end; try done.
    by apply scan_leaves_exact.
  - intros candidate. apply getUniqueUnicode_set.
Qed.

(** The set with 0xEA01 and 0xEA02. *)
Lemma getUniqueUnicode_allocates_witness :
  getUniqueUnicode NaN {[0xea01; 0xea02]}
  = getUniqueUnicode (Num 0xea01) {[0xea01; 0xea02]}
  ∧ (∀ start : Z,
       start ≤ fst (getUniqueUnicode (Num start) {[0xea01; 0xea02]})
       ∧ (fst (getUniqueUnicode (Num start) {[0xea01; 0xea02]})
          ∉ ({[0xea01; 0xea02]} : gset Z))
       ∧ (∀ k : Z,
            start ≤ k < fst (getUniqueUnicode (Num start) {[0xea01; 0xea02]}) →
            k ∈ ({[0xea01; 0xea02]} : gset Z))
       ∧ scan_leaves {[0xea01; 0xea02]} start
           (fst (getUniqueUnicode (Num start) {[0xea01; 0xea02]})))
  ∧ (∀ candidate : jsnum,
       snd (getUniqueUnicode candidate {[0xea01; 0xea02]})
       = {[fst (getUniqueUnicode candidate {[0xea01; 0xea02]})]}
         ∪ {[0xea01; 0xea02]}).
Proof.
  apply (getUniqueUnicode_allocates {[0xea01; 0xea02]}).
  intros code Hin. apply elem_of_union in Hin as [Hin|Hin];
    apply elem_of_singleton in Hin; subst code; lia.
Defined.

(** ** The registry during collection *)

Lemma registry_sound_new start : registry_sound (newResult start).
Proof.
  split; [repeat split; constructor|].
  intros icon Hin. simpl in Hin. by apply elem_of_nil in Hin.
Qed.

Lemma registry_kept_sound before after :
  registry_kept before after → registry_sound before → registry_sound after.
Proof.
  intros (Hi & Hn & Hc & Hu) [Hd Hr]. split.
  - unfold identities_distinct. by rewrite Hi.
  - unfold identities_registered. rewrite Hi, Hn, Hc, Hu. apply Hr.
Qed.

Lemma NoDup_snoc_fresh {A B : Type} `{Countable B} (f : A → B) (l : list A)
    (x : A) (registry : gset B) :
  (∀ y, y ∈ l → f y ∈ registry) → f x ∉ registry →
  NoDup (map f l) → NoDup (map f (l ++ [x])).
Proof.
  intros Hreg Hfresh Hnd. rewrite map_app. simpl.
  apply list.NoDup_app. split; [done|].
  split; [|apply NoDup_singleton].
  intros b Hb Hx. apply list_elem_of_singleton in Hx as ->.
  apply list_elem_of_fmap in Hb as (y & Hy & Hin).
  apply Hfresh. rewrite Hy. by apply Hreg.
Qed.

Lemma registry_extended_sound before after :
  registry_extended before after → registry_sound before → registry_sound after.
Proof.
  intros (icon & Hi & Hn & Hns & Hc & Hcs & Hu & Hus) [(Dn & Dc & Du) Hr].
  split.
  - unfold identities_distinct. rewrite Hi.
    split; [|split].
    + apply (NoDup_snoc_fresh iconName _ _ (iconNames before));
        [intros y Hy; by apply Hr | done | done].
    + apply (NoDup_snoc_fresh className _ _ (classNames before));
        [intros y Hy; by apply Hr | done | done].
    + apply (NoDup_snoc_fresh unicode _ _ (unicodes before));
        [intros y Hy; by apply Hr | done | done].
  - intros y Hy. rewrite Hi in Hy. rewrite Hns, Hcs, Hus.
    apply elem_of_app in Hy as [Hy | Hy].
    + destruct (Hr y Hy) as (? & ? & ?). set_solver.
    + apply list_elem_of_singleton in Hy as ->. set_solver.
Qed.

Lemma registry_kept_grows before after :
  registry_kept before after → registry_grows before after.
Proof. intros (_ & Hn & Hc & Hu). unfold registry_grows. by rewrite Hn, Hc, Hu. Qed.

Lemma registry_extended_grows before after :
  registry_extended before after → registry_grows before after.
Proof.
  intros (icon & _ & _ & Hns & _ & Hcs & _ & Hus).
  unfold registry_grows. rewrite Hns, Hcs, Hus. set_solver.
Qed.

Lemma registry_grows_refl result : registry_grows result result.
Proof. by unfold registry_grows. Qed.

Lemma registry_grows_trans a b c :
  registry_grows a b → registry_grows b c → registry_grows a c.
Proof. unfold registry_grows. set_solver. Qed.

Lemma collection_steps_sound before after :
  rtc collection_step before after → registry_sound before → registry_sound after.
Proof.
  induction 1 as [|a b c [_ [Hk|He]] _ IH]; intros Hs; [done| |].
  - apply IH. by apply (registry_kept_sound a).
  - apply IH. by apply (registry_extended_sound a).
Qed.

Lemma collection_steps_grow before after :
  rtc collection_step before after → registry_grows before after.
Proof.
  induction 1 as [|a b c [_ [Hk|He]] _ IH]; [apply registry_grows_refl| |].
  - apply (registry_grows_trans a b c); [by apply registry_kept_grows | done].
  - apply (registry_grows_trans a b c); [by apply registry_extended_grows | done].
Qed.

Lemma collection_steps_outputs before after :
  rtc collection_step before after → outputs after = outputs before.
Proof. induction 1 as [|a b c [Ho _] _ IH]; [done|]. by rewrite IH. Qed.

Lemma list_to_set_snoc `{Countable A} (l : list A) (x : A) :
  list_to_set (C := gset A) (l ++ [x]) = {[x]} ∪ list_to_set l.
Proof. rewrite list_to_set_app_L. simpl. set_solver. Qed.

Lemma registry_exact_new start : registry_exact (newResult start).
Proof. by repeat split. Qed.

Lemma collection_steps_exact before after :
  rtc collection_step before after → registry_exact before → registry_exact after.
Proof.
  induction 1 as [|a b c [_ [Hk|He]] _ IH]; intros Hexact; [done| |]; apply IH.
  - destruct Hk as (Hi & Hn & Hc & Hu), Hexact as (En & Ec & Eu).
    unfold registry_exact. by rewrite Hi, Hn, Hc, Hu.
  - destruct He as (icon & Hi & _ & Hn & _ & Hc & _ & Hu),
      Hexact as (En & Ec & Eu).
    unfold registry_exact. rewrite Hi, Hn, Hc, Hu, !map_app. simpl.
    by rewrite !list_to_set_snoc, En, Ec, Eu.
Qed.

Lemma collection_steps_prefix before after :
  rtc collection_step before after → icons before `prefix_of` icons after.
Proof.
  induction 1 as [|a b c [_ [Hk|He]] _ IH]; [done| |].
  - destruct Hk as (Hi & _). by rewrite <- Hi.
  - destruct He as (icon & Hi & _). etrans; [|done].
    rewrite Hi. by apply prefix_app_r.
Qed.

Lemma distinct_size `{Countable A} (l : list A) :
  NoDup l → size (list_to_set (C := gset A) l) = length l.
Proof. apply size_list_to_set. Qed.

Section CollectionFacts.
Context `{Externals}.

#[local] Opaque getUnique getUniqueUnicode.

(** What one call of [processNode] does to the registry. *)
Lemma processNode_registry icon path result :
  (name icon ≠ Some "svg" ∧ processNode icon path result = result)
  ∨ (name icon = Some "svg"
     ∧ registry_extended result (processNode icon path result)).
Proof.
  unfold processNode. destruct (decide (name icon = Some "svg")) as [Hsvg|Hno];
    [right; split; [done|] | by left].
  destruct (getUnique (attribute icon "id" ??! getName path) (iconNames result))
    as [iconName' iconNames'] eqn:En.
  destruct (getUnique (attribute icon "class" ??! iconName') (classNames result))
    as [className' classNames'] eqn:Ec.
  apply getUnique_pair in En as [Hn ->]. apply getUnique_pair in Ec as [Hc ->].
  destruct (attribute icon "unicode") as [text|];
    destruct (getUniqueUnicode _ (unicodes result)) as [unicode' unicodes'] eqn:Eu;
    apply getUniqueUnicode_pair in Eu as [Hu ->];
    eexists; simpl; repeat split; done.
Qed.

Lemma processNode_steps icon path result :
  rtc collection_step result (processNode icon path result).
Proof.
  destruct (processNode_registry icon path result) as [[_ ->]|[Hsvg He]];
    [constructor|].
  apply rtc_once. split; [|by right].
  unfold processNode. rewrite decide_True by done.
  destruct (getUnique _ (iconNames result)) as [iconName' iconNames'].
  destruct (getUnique _ (classNames result)) as [className' classNames'].
  destruct (attribute icon "unicode");
    by destruct (getUniqueUnicode _ (unicodes result)).
Qed.

Lemma push_dependency_step result path :
  collection_step result (push_dependency result path).
Proof. split; [done|]. by left. Qed.

Lemma push_globDependency_step result pattern cwd :
  collection_step result (push_globDependency result pattern cwd).
Proof. split; [done|]. by left. Qed.

Lemma processFile_steps path result fs after :
  processFile path result fs = Ok after → rtc collection_step result after.
Proof.
  unfold processFile. destruct (readText fs path) as [content|]; [|done]. simpl.
  destruct (XmlDocument content) as [rootNode|]; [|done]. simpl.
  intros [= <-]. eapply rtc_l; [apply push_dependency_step|].
  apply processNode_steps.
Qed.

Lemma processFiles_steps paths fs : ∀ result after,
  processFiles paths result fs = Ok after → rtc collection_step result after.
Proof.
  induction paths as [|fullPath paths IH]; intros result after; simpl.
  - intros [= <-]. constructor.
  - destruct (processFile fullPath result fs) as [next|] eqn:Ef; [|done]. simpl.
    intros Hrest. etrans; [by eapply processFile_steps | by apply IH].
Qed.

Lemma processChild_steps childNode path result fs after :
  processChild childNode path result fs = Ok after →
  rtc collection_step result after.
Proof.
  unfold processChild. destruct (decide (name childNode = Some "svg"));
    [|intros [= <-]; constructor].
  destruct (attribute childNode "src") as [src|];
    [|intros [= <-]; apply processNode_steps].
  destruct (isGlob src); [|apply processFile_steps].
  destruct (glob fs src (getDir path)) as [fullPaths|]; [|done]. simpl.
  intros Hfiles. eapply rtc_l; [apply push_globDependency_step|].
  by eapply processFiles_steps.
Qed.

Lemma processChildren_steps childNodes path fs : ∀ result after,
  processChildren childNodes path result fs = Ok after →
  rtc collection_step result after.
Proof.
  induction childNodes as [|childNode childNodes IH]; intros result after; simpl.
  - intros [= <-]. constructor.
  - destruct (processChild childNode path result fs) as [next|] eqn:Ec; [|done].
    simpl. intros Hrest. etrans; [by eapply processChild_steps | by apply IH].
Qed.

Lemma collectIconFont_steps rootNode path options fs after :
  collectIconFont rootNode path options fs = Ok after →
  ∃ start, rtc collection_step (newResult start) after.
Proof.
  unfold collectIconFont. intros Hrun. eexists.
  destruct (decide (name rootNode = Some "iconfont")).
  - destruct (children rootNode) as [childNodes|].
    + by eapply processChildren_steps.
    + injection Hrun as <-. constructor.
  - injection Hrun as <-. apply processNode_steps.
Qed.

Lemma processSource_steps source result fs after :
  processSource source result fs = Ok after → rtc collection_step result after.
Proof.
  destruct source as [path|source]; [apply processFile_steps|].
  unfold processSource, ownProperty. intros Hrun.
  eapply rtc_l; [apply (push_dependency_step result (Source.path source))|].
  destruct (Source.content source) as [content|]; simpl in Hrun;
    [|destruct (readText fs (Source.path source)) as [content|]; [|done]];
    simpl in Hrun; revert Hrun;
    destruct (getUnique _ (iconNames result)) as [iconName' iconNames'] eqn:En;
    destruct (getUnique _ (classNames result)) as [className' classNames'] eqn:Ec;
    destruct (getUniqueUnicode _ (unicodes result)) as [unicode' unicodes'] eqn:Eu;
    apply getUnique_pair in En as [Hn ->];
    apply getUnique_pair in Ec as [Hc ->];
    apply getUniqueUnicode_pair in Eu as [Hu ->];
    intros [= <-]; apply rtc_once; (split; [done|]); right;
    eexists; simpl; repeat split; done.
Qed.

Lemma processSources_steps sources fs : ∀ result after,
  processSources sources result fs = Ok after → rtc collection_step result after.
Proof.
  induction sources as [|source sources IH]; intros result after; simpl.
  - intros [= <-]. constructor.
  - destruct (processSource source result fs) as [next|] eqn:Es; [|done].
    simpl. intros Hrest. etrans; [by eapply processSource_steps | by apply IH].
Qed.

(** What a source object adds to the result. *)
Lemma processSource_object source result fs after :
  processSource (Source.Object source) result fs = Ok after →
  ∃ new : SVGIcon,
    icons after = icons result ++ [new]
    ∧ iconName new
      = fst (getUnique (getName (Source.path source)) (iconNames result))
    ∧ className new = fst (getUnique (iconName new) (classNames result))
    ∧ unicode new
      = fst (getUniqueUnicode (startUnicode result) (unicodes result))
    ∧ autoUnicode new = true
    ∧ title new = None
    ∧ iconNames after = {[iconName new]} ∪ iconNames result
    ∧ classNames after = {[className new]} ∪ classNames result
    ∧ unicodes after = {[unicode new]} ∪ unicodes result
    ∧ startUnicode after = Num (unicode new).
Proof.
  unfold processSource, ownProperty.
  destruct (Source.content source) as [content|]; simpl;
    [|destruct (readText fs (Source.path source)) as [content|]; [|done]];
    simpl;
    pose proof (getUnique_set (getName (Source.path source)) (iconNames result))
      as Hn;
    destruct (getUnique (getName (Source.path source)) (iconNames result))
      as [iconName' iconNames'] eqn:En;
    pose proof (getUnique_set iconName' (classNames result)) as Hc;
    destruct (getUnique iconName' (classNames result))
      as [className' classNames'] eqn:Ec;
    pose proof (getUniqueUnicode_set (startUnicode result) (unicodes result))
      as Hu;
    destruct (getUniqueUnicode (startUnicode result) (unicodes result))
      as [unicode' unicodes'] eqn:Eu;
    simpl in *; subst; intros [= <-]; eexists;
    (split; [reflexivity|]);
    repeat match goal with |- _ ∧ _ => split end;
    (simpl; rewrite ?Ec; reflexivity).
Qed.

End CollectionFacts.

(** ** The generation cascade *)

Section GenerationFacts.
Context `{Externals}.

#[local] Opaque generateCSS fontStreamOptions.

Ltac generate_step :=
  match goal with
  | |- context [if ?b then _ else _] => is_var b; destruct b
  | |- context [match ?x with Ok _ => _ | Throw _ => _ end] =>
      lazymatch x with
      | context [match _ with _ => _ end] => fail
      | _ => destruct x eqn:?
      end
  end; simpl.

Lemma generateIconFont_run result formats options :
  calls (generateIconFont result formats options)
    `prefix_of`
    filter (λ artifact, Flags.get (Flags.of_formats formats) artifact = true)
      generationOrder
  ∧ ∀ after,
      returned (generateIconFont result formats options) = Ok after →
      generated (Flags.of_formats formats) result options after
      ∧ calls (generateIconFont result formats options)
        = filter (λ artifact, Flags.get (Flags.of_formats formats) artifact = true)
            generationOrder.
Proof.
  unfold generateIconFont, generated, generateSVGFont, generate, returned, calls.
  generalize (Flags.of_formats formats) as flags.
  intros [f1 f2 f3 f4 f5 f6 f7 f8 f9]. unfold mbind, gen_bind, mret, gen_ret.
  simpl. repeat generate_step.
  all: split; [by eexists | try discriminate].
  all: intros after [= <-]; simpl; repeat split; eauto.
Qed.

Lemma generateIconFont_generated result formats options after :
  returned (generateIconFont result formats options) = Ok after →
  generated (Flags.of_formats formats) result options after.
Proof.
  intros Hrun. destruct (generateIconFont_run result formats options) as [_ Hok].
  by destruct (Hok after Hrun).
Qed.

Lemma generateIconFont_calls result formats options after :
  returned (generateIconFont result formats options) = Ok after →
  calls (generateIconFont result formats options)
  = filter (λ artifact, Flags.get (Flags.of_formats formats) artifact = true)
      generationOrder.
Proof.
  intros Hrun. destruct (generateIconFont_run result formats options) as [_ Hok].
  by destruct (Hok after Hrun).
Qed.

Lemma generationOrder_NoDup : NoDup generationOrder.
Proof. unfold generationOrder. repeat constructor; set_solver. Qed.

Lemma generationOrder_all artifact : artifact ∈ generationOrder.
Proof. destruct artifact; unfold generationOrder; set_solver. Qed.

Lemma generateIconFont_calls_NoDup result formats options :
  NoDup (calls (generateIconFont result formats options)).
Proof.
  destruct (generateIconFont_run result formats options) as [[rest Hprefix] _].
  pose proof (list.NoDup_filter
    (λ artifact, Flags.get (Flags.of_formats formats) artifact = true)
    generationOrder generationOrder_NoDup) as Hnd.
  rewrite Hprefix in Hnd. by apply list.NoDup_app in Hnd as [? _].
Qed.

Lemma generateIconFont_calls_flagged result formats options artifact :
  artifact ∈ calls (generateIconFont result formats options) →
  Flags.get (Flags.of_formats formats) artifact = true.
Proof.
  destruct (generateIconFont_run result formats options) as [[rest Hprefix] _].
  intros Hin.
  assert (artifact ∈ filter
    (λ artifact, Flags.get (Flags.of_formats formats) artifact = true)
    generationOrder) as Hf by (rewrite Hprefix; set_solver).
  by apply list_elem_of_filter in Hf as [? _].
Qed.

(** The flags after the [switch] loop: the flag of an artifact is set
    exactly when a requested format implies the artifact. *)
Lemma select_get flags format artifact :
  Flags.get (Flags.select flags format) artifact
  = Flags.get flags artifact || bool_decide (artifact ∈ impliedBy format).
Proof.
  destruct format, artifact; simpl;
    repeat match goal with
           | |- context [bool_decide ?P] =>
               first [ rewrite (bool_decide_eq_true_2 P) by set_solver
                     | rewrite (bool_decide_eq_false_2 P) by set_solver ]
           end;
    by rewrite ?orb_true_r, ?orb_false_r.
Qed.

Lemma fold_select_get formats artifact : ∀ flags,
  Flags.get (fold_left Flags.select formats flags) artifact = true
  ↔ Flags.get flags artifact = true ∨ activated formats artifact.
Proof.
  induction formats as [|format formats IH]; intros flags; simpl.
  - split; [by left | intros [?|(f & Hf & _)]; [done | by apply elem_of_nil in Hf]].
  - rewrite IH, select_get, orb_true_iff, bool_decide_eq_true.
    unfold activated. split.
    + intros [[?|?]|(f & Hf & Hi)]; [by left | right | right].
      * exists format. split; [left | done].
      * exists f. split; [by right | done].
    + intros [?|(f & Hf & Hi)]; [by left; left|].
      apply elem_of_cons in Hf as [->|Hf]; [left; by right|].
      right. by exists f.
Qed.

Lemma of_formats_activated formats artifact :
  Flags.get (Flags.of_formats formats) artifact = true ↔ activated formats artifact.
Proof.
  unfold Flags.of_formats. rewrite fold_select_get. split; [|by right].
  intros [Hunset|?]; [|done]. by destruct artifact.
Qed.

(** A returning [compileIconFont] has parsed, collected and generated. *)
Lemma compileIconFont_returned content path formats options fs after :
  returned (compileIconFont content path formats options fs) = Ok after →
  ∃ rootNode collected,
    XmlDocument content = Ok rootNode
    ∧ collectIconFont rootNode path options fs = Ok collected
    ∧ returned (generateIconFont collected (formats ??! defaultFormats)
                  (manifestOptions rootNode path collected options)) = Ok after
    ∧ calls (compileIconFont content path formats options fs)
      = calls (generateIconFont collected (formats ??! defaultFormats)
                 (manifestOptions rootNode path collected options)).
Proof.
  unfold compileIconFont, quiet, returned, calls, mbind, gen_bind.
  destruct (XmlDocument content) as [rootNode|]; [|done].
  destruct (collectIconFont rootNode path options fs) as [collected|] eqn:Ec;
    [|done].
  destruct (generateIconFont collected _ _) as [made run] eqn:Egen.
  simpl. intros ->. exists rootNode, collected. by rewrite Egen.
Qed.

Lemma compileIconFontFromSources_returned sources formats options fs after :
  returned (compileIconFontFromSources sources formats options fs) = Ok after →
  ∃ collected generateOptions,
    collectSources sources options fs = Ok collected
    ∧ returned (generateIconFont collected (formats ??! defaultFormats)
                  generateOptions) = Ok after
    ∧ calls (compileIconFontFromSources sources formats options fs)
      = calls (generateIconFont collected (formats ??! defaultFormats)
                 generateOptions).
Proof.
  unfold compileIconFontFromSources, quiet, returned, calls, mbind, gen_bind.
  destruct (collectSources sources options fs) as [collected|] eqn:Ec; [|done].
  destruct (generateIconFont collected _ _) as [made run] eqn:Egen.
  simpl. intros ->. eexists collected, _. by rewrite Egen.
Qed.

Lemma collectIconFont_sound rootNode path options fs collected :
  collectIconFont rootNode path options fs = Ok collected →
  registry_sound collected ∧ outputs collected = outputs (newResult NaN).
Proof.
  intros [start Hsteps]%collectIconFont_steps. split.
  - eapply collection_steps_sound; [done | apply registry_sound_new].
  - by apply collection_steps_outputs in Hsteps.
Qed.

Lemma collectSources_sound sources options fs collected :
  collectSources sources options fs = Ok collected →
  registry_sound collected ∧ outputs collected = outputs (newResult NaN).
Proof.
  intros Hsteps%processSources_steps. split.
  - eapply collection_steps_sound; [done | apply registry_sound_new].
  - by apply collection_steps_outputs in Hsteps.
Qed.

Lemma generated_sound flags result options after :
  generated flags result options after →
  registry_sound result → registry_sound after.
Proof.
  intros (_ & _ & _ & _ & _ & _ & _ & _ & _ & Hkept & _) Hsound.
  by apply (registry_kept_sound result).
Qed.

End GenerationFacts.

(** C1. Whichever entry point is used, when collection has completed (and
    still when the compile returns) the icon names, the class names and the
    code points of the listed icons are pairwise different; and no
    operation of a run takes an element out of a registry set: the two
    allocators add one element, every collection step leaves all three sets
    at least as large, and generation leaves them as they are. *)
Theorem registry_unique_and_growing `{Externals} :
  (∀ rootNode path options fs collected,
     collectIconFont rootNode path options fs = Ok collected →
     identities_distinct collected)
  ∧ (∀ sources options fs collected,
       collectSources sources options fs = Ok collected →
       identities_distinct collected)
  ∧ (∀ content path formats options fs after,
       returned (compileIconFont content path formats options fs) = Ok after →
       identities_distinct after)
  ∧ (∀ sources formats options fs after,
       returned (compileIconFontFromSources sources formats options fs) = Ok after →
       identities_distinct after)
  ∧ (∀ content (set : gset string), set ⊆ snd (getUnique content set))
  ∧ (∀ candidate (set : gset Z), set ⊆ snd (getUniqueUnicode candidate set))
  ∧ (∀ icon path result, registry_grows result (processNode icon path result))
  ∧ (∀ path result fs after,
       processFile path result fs = Ok after → registry_grows result after)
  ∧ (∀ childNodes path result fs after,
       processChildren childNodes path result fs = Ok after →
       registry_grows result after)
  ∧ (∀ sources result fs after,
       processSources sources result fs = Ok after → registry_grows result after)
  ∧ (∀ result formats options after,
       returned (generateIconFont result formats options) = Ok after →
       registry_kept result after).
Proof.
  repeat match goal with |- _ ∧ _ => split end.
  - intros rootNode path options fs collected Hc.
    by apply collectIconFont_sound in Hc as [[? _] _].
  - intros sources options fs collected Hc.
    by apply collectSources_sound in Hc as [[? _] _].
  - intros content path formats options fs after
      (rootNode & collected & _ & Hc & Hg & _)%compileIconFont_returned.
    apply collectIconFont_sound in Hc as [Hs _].
    apply generateIconFont_generated in Hg.
    by destruct (generated_sound _ _ _ _ Hg Hs).
  - intros sources formats options fs after
      (collected & generateOptions & Hc & Hg & _)%compileIconFontFromSources_returned.
    apply collectSources_sound in Hc as [Hs _].
    apply generateIconFont_generated in Hg.
    by destruct (generated_sound _ _ _ _ Hg Hs).
  - intros content set. rewrite getUnique_set. set_solver.
  - intros candidate set. rewrite getUniqueUnicode_set. set_solver.
  - intros icon path result. apply collection_steps_grow, processNode_steps.
  - intros path result fs after Hrun.
    by eapply collection_steps_grow, processFile_steps.
  - intros childNodes path result fs after Hrun.
    by eapply collection_steps_grow, processChildren_steps.
  - intros sources result fs after Hrun.
    by eapply collection_steps_grow, processSources_steps.
  - intros result formats options after Hg%generateIconFont_generated.
    by destruct Hg as (_ & _ & _ & _ & _ & _ & _ & _ & _ & Hkept & _).
Qed.

Section EntryPointFacts.
Context `{Externals}.

(** What a returning entry point has done: collected into a result whose
    output slots are all unset, then generated under the flags of the
    requested (or default) formats. *)
Lemma compileIconFont_generated content path formats options fs after :
  returned (compileIconFont content path formats options fs) = Ok after →
  ∃ collected generateOptions,
    outputs collected = outputs (newResult NaN)
    ∧ generated (Flags.of_formats (formats ??! defaultFormats)) collected
        generateOptions after
    ∧ calls (compileIconFont content path formats options fs)
      = filter (λ artifact,
          Flags.get (Flags.of_formats (formats ??! defaultFormats)) artifact = true)
          generationOrder.
Proof.
  intros (rootNode & collected & _ & Hc & Hg & Hcalls)%compileIconFont_returned.
  exists collected, (manifestOptions rootNode path collected options).
  apply collectIconFont_sound in Hc as [_ Hout]. split; [done|].
  split; [by apply generateIconFont_generated|].
  rewrite Hcalls. by eapply generateIconFont_calls.
Qed.

Lemma compileIconFontFromSources_generated sources formats options fs after :
  returned (compileIconFontFromSources sources formats options fs) = Ok after →
  ∃ collected generateOptions,
    outputs collected = outputs (newResult NaN)
    ∧ generated (Flags.of_formats (formats ??! defaultFormats)) collected
        generateOptions after
    ∧ calls (compileIconFontFromSources sources formats options fs)
      = filter (λ artifact,
          Flags.get (Flags.of_formats (formats ??! defaultFormats)) artifact = true)
          generationOrder.
Proof.
  intros (collected & generateOptions & Hc & Hg & Hcalls)
    %compileIconFontFromSources_returned.
  exists collected, generateOptions.
  apply collectSources_sound in Hc as [_ Hout]. split; [done|].
  split; [by apply generateIconFont_generated|].
  rewrite Hcalls. by eapply generateIconFont_calls.
Qed.



(** How often a generator is called in a run that returns: once under a set
    flag, never otherwise. *)
Lemma generateIconFont_count result formats options after artifact :
  returned (generateIconFont result formats options) = Ok after →
  count_occ Format.eq_dec (calls (generateIconFont result formats options)) artifact
  = if Flags.get (Flags.of_formats formats) artifact then 1%nat else 0%nat.
Proof.
  intros Hrun.
  pose proof (generateIconFont_calls_NoDup result formats options) as Hnd.
  rewrite (generateIconFont_calls _ _ _ _ Hrun) in *.
  destruct (Flags.get (Flags.of_formats formats) artifact) eqn:Hflag.
  - apply NoDup_ListNoDup in Hnd.
    apply (proj1 (NoDup_count_occ' Format.eq_dec _) Hnd). apply list_elem_of_In.
    apply list_elem_of_filter. split; [done | apply generationOrder_all].
  - apply count_occ_not_In. rewrite <- list_elem_of_In.
    intros [Hget _]%list_elem_of_filter. congruence.
Qed.

End EntryPointFacts.

(** ** Generation returns *)

Section ProgressFacts.
Context `{Externals}.

#[local] Opaque generateCSS fontStreamOptions.

(** What a requested format implies, the request activates. *)
Lemma activated_chain formats artifact format :
  artifact ∈ impliedBy format →
  activated formats format → activated formats artifact.
Proof.
  intros Hin (requested & Hreq & Himplied). exists requested. split; [done|].
  destruct requested, format; simpl in *; set_solver.
Qed.

Ltac open_guards :=
  repeat match goal with
         | A : true = true ↔ ?P, Hg : ?P → _ |- _ =>
             specialize (Hg (proj1 A eq_refl))
         end.

Ltac deliver_step :=
  match goal with
  | Hg : ∀ o, ∃ v, SVGIcons2SVGFontStream o ?i = Ok v ∧ _
    |- context [SVGIcons2SVGFontStream ?o ?i] =>
      let Heq := fresh "Heq" in
      let Hnext := fresh "Hnext" in
      destruct (Hg o) as (? & Heq & Hnext); rewrite Heq; clear Hg
  | Hg : ∀ t, ∃ v, svg2ttf (Some ?font) t = Ok v ∧ _
    |- context [svg2ttf (Some ?font) ?t] =>
      let Heq := fresh "Heq" in
      destruct (Hg t) as (? & Heq & ? & ? & ?); rewrite Heq; clear Hg
  | Hg : ∃ v, ttf2eot (Some ?bytes) = Ok v
    |- context [ttf2eot (Some ?bytes)] =>
      let Heq := fresh "Heq" in
      destruct Hg as (? & Heq); rewrite Heq
  | Hg : ∀ o, ∃ v, ttf2woff (Some ?bytes) o = Ok v
    |- context [ttf2woff (Some ?bytes) ?o] =>
      let Heq := fresh "Heq" in
      destruct (Hg o) as (? & Heq); rewrite Heq; clear Hg
  | Hg : ∃ v, wawoff2_compress (Some ?bytes) = Ok v
    |- context [wawoff2_compress (Some ?bytes)] =>
      let Heq := fresh "Heq" in
      destruct Hg as (? & Heq); rewrite Heq
  | Hg : ∀ o, ∃ v, generateSVGSprite ?i o = Ok v ∧ _
    |- context [generateSVGSprite ?i ?o] =>
      let Heq := fresh "Heq" in
      destruct (Hg o) as (? & Heq & ?); rewrite Heq; clear Hg
  | Hg : ∀ o, ∃ v, generateJS (Some ?sprite) o = Ok v
    |- context [generateJS (Some ?sprite) ?o] =>
      let Heq := fresh "Heq" in
      destruct (Hg o) as (? & Heq); rewrite Heq; clear Hg
  | Hg : ∀ o, ∃ v, generateHTML ?i o = Ok v
    |- context [generateHTML ?i ?o] =>
      let Heq := fresh "Heq" in
      destruct (Hg o) as (? & Heq); rewrite Heq; clear Hg
  end; simpl; open_guards.

(** Generation returns when the generators it reaches return. *)
Lemma generateIconFont_returns result formats options :
  delivered formats (icons result) →
  ∃ after, returned (generateIconFont result formats options) = Ok after.
Proof.
  intros (Hfonts & Hsprite & Hpreview).
  pose proof (of_formats_activated formats Format.svgFont) as A1.
  pose proof (of_formats_activated formats Format.ttf) as A2.
  pose proof (of_formats_activated formats Format.eot) as A3.
  pose proof (of_formats_activated formats Format.woff) as A4.
  pose proof (of_formats_activated formats Format.woff2) as A5.
  pose proof (of_formats_activated formats Format.svg) as A6.
  pose proof (of_formats_activated formats Format.js) as A7.
  pose proof (of_formats_activated formats Format.html) as A8.
  assert (activated formats Format.ttf → activated formats Format.svgFont)
    as C1 by (apply activated_chain; set_solver).
  assert (activated formats Format.eot → activated formats Format.ttf)
    as C2 by (apply activated_chain; set_solver).
  assert (activated formats Format.woff → activated formats Format.ttf)
    as C3 by (apply activated_chain; set_solver).
  assert (activated formats Format.woff2 → activated formats Format.ttf)
    as C4 by (apply activated_chain; set_solver).
  assert (activated formats Format.js → activated formats Format.svg)
    as C5 by (apply activated_chain; set_solver).
  rewrite <- A1, <- A2 in C1. rewrite <- A2, <- A3 in C2.
  rewrite <- A4, <- A2 in C3. rewrite <- A5, <- A2 in C4.
  rewrite <- A7, <- A6 in C5.
  revert A1 A2 A3 A4 A5 A6 A7 A8 C1 C2 C3 C4 C5.
  unfold generateIconFont, generateSVGFont, generate, returned.
  generalize (Flags.of_formats formats) as flags.
  intros [f1 f2 f3 f4 f5 f6 f7 f8 f9]. unfold mbind, gen_bind, mret, gen_ret.
  simpl. intros A1 A2 A3 A4 A5 A6 A7 A8 C1 C2 C3 C4 C5.
  destruct f3; [rewrite C1 in * by done|];
    (destruct f2; [try discriminate (C2 eq_refl)|]);
    (destruct f4; [try discriminate (C3 eq_refl)|]);
    (destruct f5; [try discriminate (C4 eq_refl)|]);
    (destruct f6; [rewrite C5 in * by done|]); simpl.
  all: clear C1 C2 C3 C4 C5.
  all: try destruct f1; try destruct f7; destruct f8; destruct f9; simpl.
  all: open_guards; repeat deliver_step.
  all: by eexists.
Qed.

(** The entry points return when parsing, collection and the generators
    they reach return. *)
Lemma compileIconFont_returns content path formats options fs rootNode collected :
  XmlDocument content = Ok rootNode →
  collectIconFont rootNode path options fs = Ok collected →
  delivered (formats ??! defaultFormats) (icons collected) →
  ∃ after,
    returned (compileIconFont content path formats options fs) = Ok after.
Proof.
  intros Hparse Hcollect Hdelivered.
  destruct (generateIconFont_returns collected (formats ??! defaultFormats)
              (manifestOptions rootNode path collected options) Hdelivered)
    as [after Hafter].
  exists after. revert Hafter.
  unfold compileIconFont, quiet, returned, mbind, gen_bind.
  rewrite Hparse, Hcollect.
  by destruct (generateIconFont collected _ _) as [made run].
Qed.

Lemma compileIconFontFromSources_returns sources formats options fs collected :
  collectSources sources options fs = Ok collected →
  delivered (formats ??! defaultFormats) (icons collected) →
  ∃ after,
    returned (compileIconFontFromSources sources formats options fs) = Ok after.
Proof.
  intros Hcollect Hdelivered.
  unfold compileIconFontFromSources, quiet, returned, mbind, gen_bind.
  rewrite Hcollect.
  match goal with
  | |- context [generateIconFont collected ?f ?o] =>
      destruct (generateIconFont_returns collected f o Hdelivered)
        as [after Hafter];
      exists after; revert Hafter; unfold returned;
      by destruct (generateIconFont collected f o) as [made run]
  end.
Qed.

End ProgressFacts.

(** C4. A compile that is asked for [woff2] alone and returns has called
    the font stream, [svg2ttf] and the [woff2] compressor, in that order and
    nothing else: [svgFont], [ttf] and [woff2] hold what these returned (each
    fed with the slot before it), which is not empty when the codecs never
    return empty data, and [eot], [woff], [css], [html], [js] and [svg] are
    unset.  Such a compile does return, for [woff2] as for every request,
    when parsing and collection return and the generators the request
    activates return for the collected icons.  For every request, an artifact
    that some requested format implies is generated exactly once in a
    returning run and no other artifact is generated; no run, returning or
    not, calls a generator twice. *)
Theorem woff2_alone_and_once `{Externals} :
  (∀ content path options fs after,
     returned (compileIconFont content path (Some [Format.woff2]) options fs)
     = Ok after →
     (∃ font bytes compressed,
        svgFont after = Some font ∧ ttf after = Some bytes
        ∧ woff2 after = Some compressed
        ∧ (∃ streamOptions,
             SVGIcons2SVGFontStream streamOptions (icons after) = Ok font)
        ∧ (∃ ttfOptions, svg2ttf (Some font) ttfOptions = Ok bytes)
        ∧ wawoff2_compress (Some bytes) = Ok compressed
        ∧ (dataNotEmpty →
           font ≠ EmptyString ∧ bytes ≠ [] ∧ compressed ≠ []))
     ∧ eot after = None ∧ woff after = None ∧ css after = None
     ∧ html after = None ∧ js after = None ∧ svg after = None
     ∧ calls (compileIconFont content path (Some [Format.woff2]) options fs)
       = [Format.svgFont; Format.ttf; Format.woff2])
  ∧ (∀ sources options fs after,
       returned (compileIconFontFromSources sources (Some [Format.woff2]) options fs)
       = Ok after →
       (∃ font bytes compressed,
          svgFont after = Some font ∧ ttf after = Some bytes
          ∧ woff2 after = Some compressed
          ∧ (∃ streamOptions,
               SVGIcons2SVGFontStream streamOptions (icons after) = Ok font)
          ∧ (∃ ttfOptions, svg2ttf (Some font) ttfOptions = Ok bytes)
          ∧ wawoff2_compress (Some bytes) = Ok compressed
          ∧ (dataNotEmpty →
             font ≠ EmptyString ∧ bytes ≠ [] ∧ compressed ≠ []))
       ∧ eot after = None ∧ woff after = None ∧ css after = None
       ∧ html after = None ∧ js after = None ∧ svg after = None
       ∧ calls (compileIconFontFromSources sources (Some [Format.woff2]) options fs)
         = [Format.svgFont; Format.ttf; Format.woff2])
  ∧ (∀ content path formats options fs rootNode collected,
       XmlDocument content = Ok rootNode →
       collectIconFont rootNode path options fs = Ok collected →
       delivered formats (icons collected) →
       ∃ after,
         returned (compileIconFont content path (Some formats) options fs)
         = Ok after)
  ∧ (∀ sources formats options fs collected,
       collectSources sources options fs = Ok collected →
       delivered formats (icons collected) →
       ∃ after,
         returned (compileIconFontFromSources sources (Some formats) options fs)
         = Ok after)
  ∧ (∀ result formats options,
       delivered formats (icons result) →
       ∃ after, returned (generateIconFont result formats options) = Ok after)
  ∧ (∀ result formats options after artifact,
       returned (generateIconFont result formats options) = Ok after →
       (activated formats artifact →
        count_occ Format.eq_dec
          (calls (generateIconFont result formats options)) artifact = 1%nat)
       ∧ (¬ activated formats artifact →
          count_occ Format.eq_dec
            (calls (generateIconFont result formats options)) artifact = 0%nat))
  ∧ (∀ result formats options artifact,
       (count_occ Format.eq_dec
          (calls (generateIconFont result formats options)) artifact ≤ 1)%nat).
Proof.
  repeat match goal with |- _ ∧ _ => split end.
  - intros content path options fs after
      (collected & generateOptions & Hout & Hgen & Hcalls)%compileIconFont_generated.
    rewrite Hcalls. clear Hcalls. injection Hout as ? ? ? ? ? ? ? ? ?.
    destruct Hgen as ((font & Hfont & Hstream) & (bytes & Hbytes & Httf)
      & Heot & Hwoff & (compressed & Hcompressed & Hwoff2)
      & Hsvg & Hjs & Hcss & Hhtml & (Hicons & _) & _).
    simpl in *. rewrite Hfont in Httf. rewrite Hbytes in Hwoff2.
    rewrite <- Hicons in Hstream.
    repeat match goal with |- _ ∧ _ => split end; try congruence; [|done].
    exists font, bytes, compressed.
    repeat match goal with |- _ ∧ _ => split end; eauto.
    intros (Hs & Ht & _ & _ & Hw).
    split; [by eapply Hs | split; [by eapply Ht | by eapply Hw]].
  - intros sources options fs after
      (collected & generateOptions & Hout & Hgen & Hcalls)
      %compileIconFontFromSources_generated.
    rewrite Hcalls. clear Hcalls. injection Hout as ? ? ? ? ? ? ? ? ?.
    destruct Hgen as ((font & Hfont & Hstream) & (bytes & Hbytes & Httf)
      & Heot & Hwoff & (compressed & Hcompressed & Hwoff2)
      & Hsvg & Hjs & Hcss & Hhtml & (Hicons & _) & _).
    simpl in *. rewrite Hfont in Httf. rewrite Hbytes in Hwoff2.
    rewrite <- Hicons in Hstream.
    repeat match goal with |- _ ∧ _ => split end; try congruence; [|done].
    exists font, bytes, compressed.
    repeat match goal with |- _ ∧ _ => split end; eauto.
    intros (Hs & Ht & _ & _ & Hw).
    split; [by eapply Hs | split; [by eapply Ht | by eapply Hw]].
  - intros content path formats options fs rootNode collected.
    apply (compileIconFont_returns content path (Some formats)).
  - intros sources formats options fs collected.
    apply (compileIconFontFromSources_returns sources (Some formats)).
  - intros result formats options. apply generateIconFont_returns.
  - intros result formats options after artifact Hrun.
    rewrite (generateIconFont_count _ _ _ _ artifact Hrun). split.
    + intros Hact%of_formats_activated. by rewrite Hact.
    + intros Hnot.
      destruct (Flags.get (Flags.of_formats formats) artifact) eqn:Hflag; [|done].
      by apply of_formats_activated in Hflag.
  - intros result formats options artifact.
    pose proof (generateIconFont_calls_NoDup result formats options) as Hnd.
    apply NoDup_ListNoDup in Hnd.
    by apply (proj1 (NoDup_count_occ Format.eq_dec _)).
Qed.

(** The manifest with two icons, compiled for [woff2] with codecs that
    return four bytes. *)
Lemma woff2_alone_and_once_witness :
  ∃ after font bytes compressed,
    returned (compileIconFont (H := Demo.externals) Demo.twoNamedAText
                "icons.iconfont" (Some [Format.woff2]) None Demo.fs)
    = Ok after
    ∧ svgFont after = Some font ∧ font ≠ EmptyString
    ∧ ttf after = Some bytes ∧ bytes ≠ []
    ∧ woff2 after = Some compressed ∧ compressed ≠ [].
Proof.
  destruct (woff2_alone_and_once (H := Demo.externals))
    as (Hfields & _ & Hreturns & _).
  destruct (Hreturns Demo.twoNamedAText "icons.iconfont" [Format.woff2] None
              Demo.fs Demo.twoNamedA
              (Demo.value (collectIconFont (H := Demo.externals) Demo.twoNamedA
                             "icons.iconfont" None Demo.fs)))
    as [after Hafter].
  - reflexivity.
  - vm_compute. reflexivity.
  - repeat split; intros; eexists; repeat split; intros; try eexists;
      repeat split; intros; try eexists; reflexivity.
  - destruct (Hfields _ _ _ _ _ Hafter)
      as ((font & bytes & compressed & Hfont & Hbytes & Hcompressed & _ & _ & _
           & Hdata) & _).
    destruct Hdata as (? & ? & ?).
    { repeat split; intros;
        match goal with Heq : _ = Ok _ |- _ => cbn in Heq; injection Heq as <- end;
        done. }
    by exists after, font, bytes, compressed.
Defined.



(** C8. With no icons, [generateSVGFont] hands the font stream options in
    which [normalize] is [true], whatever was configured; a generation over
    an empty icon list that builds the font container and returns has got
    its [svgFont] from a stream so configured.  With icons, a configured
    [normalize: false] is passed on unchanged. *)
Theorem empty_icon_list_normalizes `{Externals} (options : IconFontOptions) :
  (∃ streamOptions,
     generateSVGFont [] options
     = (streamOptions, SVGIcons2SVGFontStream streamOptions [])
     ∧ Options.normalize streamOptions = Some true)
  ∧ (∀ result formats after,
       icons result = [] →
       Flags.svgFont (Flags.of_formats formats) = true →
       returned (generateIconFont result formats options) = Ok after →
       ∃ streamOptions font,
         Options.normalize streamOptions = Some true
         ∧ SVGIcons2SVGFontStream streamOptions [] = Ok font
         ∧ svgFont after = Some font)
  ∧ (∀ icon icons,
       Options.normalize options = Some false →
       Options.normalize (fst (generateSVGFont (icon :: icons) options))
       = Some false).
Proof.
  repeat match goal with |- _ ∧ _ => split end.
  - by eexists.
  - intros result formats after Hempty Hflag Hgen%generateIconFont_generated.
    destruct Hgen as (Hfont & _). rewrite Hflag, Hempty in Hfont.
    destruct Hfont as (font & Hslot & Hstream).
    by exists (fontStreamOptions [] options), font.
  - intros icon icons Hconfigured. simpl. by rewrite Hconfigured.
Qed.

(** ** Boolean attributes of the manifest root *)

(** C9, as stated, fails for [fixedWidth]: a manifest without that
    attribute, compiled without caller options, hands the font stream no
    [fixedWidth] at all, not [true]. *)
Lemma absent_fixedWidth_is_not_true :
  ¬ (∀ (E : Externals) (rootNode : SVGNode) (path : string)
       (result : CompileIconFontResult) (icons : list SVGIcon),
       (attr rootNode ??! ∅) !! "fixedWidth" = None →
       Options.fixedWidth
         (fontStreamOptions icons (manifestOptions rootNode path result None))
       = Some true).
Proof.
  intros Hclaim.
  specialize (Hclaim Demo.externals Demo.twoNamedA "icons.iconfont"
                (newResult NaN) [] eq_refl).
  discriminate Hclaim.
Qed.

(** C9, amended. A boolean attribute of the manifest root that is present
    parses to [false] exactly when its text is [false], and to [true] for
    every other text.  Compiled without caller options, the font stream
    receives for [centerHorizontally] the parsed value, or [true] when the
    attribute is absent; the same for [normalize] when there is at least one
    icon; and for [fixedWidth] the parsed value, or nothing when the
    attribute is absent. *)
Theorem boolean_attributes `{Externals} :
  (∀ value, parseBoolean (Some value) = Some false ↔ value = "false")
  ∧ (∀ value, parseBoolean (Some value) = Some true ↔ value ≠ "false")
  ∧ (∀ (rootNode : SVGNode) (path : string) (result : CompileIconFontResult)
       (icons : list SVGIcon),
       let attrs : gmap string string := attr rootNode ??! ∅ in
       let streamOptions :=
         fontStreamOptions icons (manifestOptions rootNode path result None) in
       Options.centerHorizontally streamOptions
       = Some (match attrs !! "centerHorizontally" with
               | Some value => bool_decide (value ≠ "false")
               | None => true
               end)
       ∧ (icons ≠ [] →
          Options.normalize streamOptions
          = Some (match attrs !! "normalize" with
                  | Some value => bool_decide (value ≠ "false")
                  | None => true
                  end))
       ∧ Options.fixedWidth streamOptions
         = match attrs !! "fixedWidth" with
           | Some value => Some (bool_decide (value ≠ "false"))
           | None => None
           end).
Proof.
  repeat match goal with |- _ ∧ _ => split end.
  - intros value. simpl. split.
    + intros [= Hb]. apply bool_decide_eq_false in Hb. by apply dec_stable.
    + intros ->. reflexivity.
  - intros value. simpl. split.
    + intros [= Hb]. by apply bool_decide_eq_true in Hb.
    + intros Hne. by rewrite bool_decide_eq_true_2.
  - intros rootNode path result icons attrs streamOptions.
    unfold streamOptions, fontStreamOptions, manifestOptions. simpl. fold attrs.
    repeat match goal with |- _ ∧ _ => split end.
    + by destruct (attrs !! "centerHorizontally").
    + intros Hicons. destruct icons; [done|]. simpl.
      by destruct (attrs !! "normalize").
    + by destruct (attrs !! "fixedWidth").
Qed.

(** ** The stylesheet *)

Section TextFacts.

Lemma append_cons c (a b : string) : String c a +:+ b = String c (a +:+ b).
Proof. reflexivity. Qed.

Lemma append_assoc (a b c : string) : (a +:+ b) +:+ c = a +:+ b +:+ c.
Proof. induction a as [|x a IH]; [done|]. by rewrite !append_cons, IH. Qed.

Lemma append_empty_r (a : string) : a +:+ EmptyString = a.
Proof. induction a as [|x a IH]; [done|]. by rewrite append_cons, IH. Qed.

Lemma length_append (a b : string) :
  String.length (a +:+ b) = (String.length a + String.length b)%nat.
Proof. induction a as [|x a IH]; [done|]. rewrite append_cons. simpl. by rewrite IH. Qed.

(** [String.prefix] decides "begins with". *)
Lemma prefix_begins (part : string) : ∀ text : string,
  String.prefix part text = true ↔ ∃ rest, text = part +:+ rest.
Proof.
  induction part as [|c part IH]; intros text.
  - split; [by exists text | by destruct text].
  - destruct text as [|d text]; simpl; [split; [done | by intros [rest ?]]|].
    destruct (ascii_dec c d) as [->|Hne].
    + rewrite IH. split; intros [rest Hrest]; exists rest.
      * by rewrite append_cons, Hrest.
      * rewrite append_cons in Hrest. by injection Hrest.
    + split; [done|]. intros [rest Hrest]. rewrite append_cons in Hrest.
      injection Hrest as Hc _. by destruct Hne.
Qed.

Lemma includes_unfold (text part : string) :
  Text.includes text part
  = String.prefix part text
    || match text with
       | String _ rest => Text.includes rest part
       | EmptyString => false
       end.
Proof. by destruct text. Qed.

(** [Text.includes] decides "contains". *)
Lemma includes_contains (part : string) : ∀ text : string,
  Text.includes text part = true ↔ ∃ before after, text = before +:+ part +:+ after.
Proof.
  induction text as [|c text IH];
    rewrite includes_unfold, orb_true_iff, prefix_begins.
  - split.
    + intros [[rest Hrest]|?]; [|done]. by exists EmptyString, rest.
    + intros (before & after & Htext). left. destruct before; [|done].
      by exists after.
  - rewrite IH. split.
    + intros [[rest Hrest]|(before & after & Htext)].
      * by exists EmptyString, rest.
      * exists (String c before), after. by rewrite append_cons, Htext.
    + intros (before & after & Htext). destruct before as [|d before].
      * left. by exists after.
      * right. rewrite append_cons in Htext. injection Htext as _ Htext.
        by exists before, after.
Qed.

(** A joined list contains each of its parts. *)
Lemma join_contains {A : Type} (f : A → string) (separator : string) (x : A) :
  ∀ l : list A, x ∈ l →
    ∃ before after, Text.join separator (map f l) = before +:+ f x +:+ after.
Proof.
  unfold Text.join.
  induction l as [|y l IH]; intros Hin; [by apply elem_of_nil in Hin|].
  apply elem_of_cons in Hin as [->|Hin].
  - destruct l as [|z l]; simpl.
    + exists EmptyString, EmptyString. by rewrite append_empty_r.
    + by exists EmptyString, (separator +:+ String.concat separator (map f (z :: l))).
  - destruct (IH Hin) as (before & after & Htail).
    destruct l as [|z l]; [by apply elem_of_nil in Hin|].
    change (String.concat separator (map f (y :: z :: l)))
      with (f y +:+ separator +:+ String.concat separator (map f (z :: l))).
    rewrite Htail. exists (f y +:+ separator +:+ before), after.
    by rewrite !append_assoc.
Qed.

End TextFacts.

(** C6, as stated, fails: the stylesheet of the single icon [warn] at
    U+EA01 under an empty prefix nowhere contains the rule with
    [::before]. *)
Lemma stylesheet_lacks_double_colon_rule :
  ¬ ∃ before after : string,
      generateCSS (H := Demo.externals) [Demo.warn] Demo.emptyPrefix
      = before +:+ ruleWithDoubleColon +:+ after.
Proof.
  rewrite <- includes_contains. intros Hincludes. vm_compute in Hincludes.
  discriminate Hincludes.
Qed.

(** C6, amended. For an icon with class [warn] and code point 0xEA01 under
    an empty configured prefix, the rule written for the icon is
    [.warn:before { content: "\ea01"; }], with a single colon and with
    neither prefix nor hyphen in the selector, and the stylesheet, which is
    the font face block followed by the rules of the icons joined by line
    breaks, contains it. *)
Theorem stylesheet_rule_of_warn `{Externals} (icons : list SVGIcon)
    (options : IconFontOptions) (icon : SVGIcon) :
  icon ∈ icons →
  className icon = "warn" →
  unicode icon = 0xea01 →
  Options.classNamePrefix options = Some EmptyString →
  iconRule EmptyString icon = ruleWithSingleColon
  ∧ (∃ baseName hash,
       generateCSS icons options
       = fontFace baseName EmptyString hash
         +:+ Text.join Text.newline (map (iconRule EmptyString) icons))
  ∧ ∃ before after : string,
      generateCSS icons options = before +:+ ruleWithSingleColon +:+ after.
Proof.
  intros Hin Hclass Hcode Hprefix.
  assert (iconRule EmptyString icon = ruleWithSingleColon) as Hrule.
  { unfold iconRule. by rewrite Hclass, Hcode. }
  split; [done|]. unfold generateCSS. rewrite Hprefix. simpl.
  split; [by eexists _, _|].
  destruct (join_contains (iconRule EmptyString) Text.newline icon icons Hin)
    as (before & after & Hjoin).
  rewrite Hjoin, Hrule. eexists (_ +:+ before), after. by rewrite append_assoc.
Qed.

(** The stylesheet of the single icon [warn] under an empty prefix. *)
Lemma stylesheet_rule_of_warn_witness :
  iconRule EmptyString Demo.warn = ruleWithSingleColon
  ∧ (∃ baseName hash,
       generateCSS (H := Demo.externals) [Demo.warn] Demo.emptyPrefix
       = fontFace baseName EmptyString hash
         +:+ Text.join Text.newline (map (iconRule EmptyString) [Demo.warn]))
  ∧ ∃ before after : string,
      generateCSS (H := Demo.externals) [Demo.warn] Demo.emptyPrefix
      = before +:+ ruleWithSingleColon +:+ after.
Proof.
  apply (stylesheet_rule_of_warn (H := Demo.externals)
           [Demo.warn] Demo.emptyPrefix Demo.warn).
  - apply list_elem_of_here.
  - reflexivity.
  - reflexivity.
  - reflexivity.
Defined.

(** ** Code points of explicit and automatic icons *)

Section UnicodeFacts.
Context `{Externals}.

#[local] Opaque getUnique getUniqueUnicode.

(** An [svg] node without [unicode] attribute takes its code point from
    the cursor and moves the cursor there. *)
Lemma processNode_auto icon path result :
  name icon = Some "svg" →
  attribute icon "unicode" = None →
  ∃ new : SVGIcon,
    icons (processNode icon path result) = icons result ++ [new]
    ∧ autoUnicode new = true
    ∧ unicode new = fst (getUniqueUnicode (startUnicode result) (unicodes result))
    ∧ startUnicode (processNode icon path result) = Num (unicode new).
Proof.
  intros Hsvg Hauto. unfold processNode. rewrite decide_True by done.
  rewrite Hauto.
  destruct (getUnique _ (iconNames result)) as [iconName' iconNames'].
  destruct (getUnique _ (classNames result)) as [className' classNames'].
  destruct (getUniqueUnicode _ (unicodes result)) as [unicode' unicodes'].
  by eexists.
Qed.

(** An [svg] node with a [unicode] attribute asks for the code point the
    attribute denotes and leaves the cursor alone. *)
Lemma processNode_explicit icon path result text :
  name icon = Some "svg" →
  attribute icon "unicode" = Some text →
  let candidate :=
    numberArgument (if startsWith text "0x" then parseNumber (Some text)
                    else codePointAt0 text) in
  ∃ new : SVGIcon,
    icons (processNode icon path result) = icons result ++ [new]
    ∧ autoUnicode new = false
    ∧ unicode new = fst (getUniqueUnicode candidate (unicodes result))
    ∧ unicodes (processNode icon path result)
      = snd (getUniqueUnicode candidate (unicodes result))
    ∧ startUnicode (processNode icon path result) = startUnicode result.
Proof.
  intros Hsvg Hexplicit candidate. unfold processNode.
  rewrite decide_True by done. rewrite Hexplicit. fold candidate.
  destruct (getUnique _ (iconNames result)) as [iconName' iconNames'].
  destruct (getUnique _ (classNames result)) as [className' classNames'].
  destruct (getUniqueUnicode candidate (unicodes result)) as [unicode' unicodes'].
  by eexists.
Qed.

(** After an icon with [unicode="0x41"] has been processed, 0x41 is
    registered (to that icon, or to an earlier one). *)
Lemma explicit_0x41_registered icon path result :
  name icon = Some "svg" →
  attribute icon "unicode" = Some "0x41" →
  0x41 ∈ unicodes (processNode icon path result).
Proof.
  intros Hsvg Hexplicit.
  destruct (processNode_explicit icon path result "0x41" Hsvg Hexplicit)
    as (new & _ & _ & _ & -> & _).
  change (numberArgument _) with (Num 0x41).
  rewrite getUniqueUnicode_set.
  destruct (getUniqueUnicode_least 0x41 (unicodes result)) as (Hle & _ & Htaken).
  destruct (decide (fst (getUniqueUnicode (Num 0x41) (unicodes result)) = 0x41))
    as [->|Hne]; [set_solver|].
  apply elem_of_union_r, Htaken. lia.
Qed.

Lemma processChildren_app before after path fs : ∀ result,
  processChildren (before ++ after) path result fs
  = processChildren before path result fs
    ≫= λ result, processChildren after path result fs.
Proof.
  induction before as [|childNode before IH]; intros result; simpl; [done|].
  destruct (processChild childNode path result fs) as [next|]; simpl; [|done].
  apply IH.
Qed.

(** Where the automatic code point lands when the cursor stands at a
    registered point. *)
Lemma auto_from_cursor (cursor : Z) (set : gset Z) :
  cursor ∈ set →
  cursor + 1 ≤ fst (getUniqueUnicode (Num cursor) set)
  ∧ (∀ k, cursor + 1 ≤ k < fst (getUniqueUnicode (Num cursor) set) → k ∈ set)
  ∧ (cursor + 1 ∉ set → fst (getUniqueUnicode (Num cursor) set) = cursor + 1).
Proof.
  intros Hin.
  destruct (getUniqueUnicode_least cursor set) as (Hle & Hfresh & Htaken).
  assert (fst (getUniqueUnicode (Num cursor) set) ≠ cursor) by congruence.
  split; [lia|]. split; [intros k Hk; apply Htaken; lia|].
  intros Hfree.
  destruct (decide (fst (getUniqueUnicode (Num cursor) set) = cursor + 1));
    [done|].
  destruct Hfree. apply Htaken. lia.
Qed.

End UnicodeFacts.

(** C7, as stated, fails in its middle part: the cursor can stand at 0x41
    with 0x42 taken as well, and the automatic icon then receives a later
    point.  Here two automatic icons from 0x40 on are followed by an icon
    with [unicode="0x41"], which gets 0x42; the next automatic icon finds
    the cursor at 0x41 and receives 0x43. *)
Lemma auto_icon_may_pass_0x42 :
  ¬ (∀ (E : Externals) (fs : FileSystem) (path : string) (start : jsnum)
       (earlier between : list SVGNode) (explicit auto : SVGNode)
       (registered result : CompileIconFontResult) (new : SVGIcon),
       name explicit = Some "svg" →
       attribute explicit "src" = None →
       attribute explicit "unicode" = Some "0x41" →
       name auto = Some "svg" →
       attribute auto "unicode" = None →
       processChildren (earlier ++ [explicit]) path (newResult start) fs
       = Ok registered →
       processChildren between path registered fs = Ok result →
       startUnicode result = Num 0x41 →
       icons (processNode auto path result) = icons result ++ [new] →
       unicode new = 0x42).
Proof.
  intros Hclaim.
  specialize (Hclaim Demo.externals Demo.fs "icons.iconfont" (Num 0x40)
                [Demo.svgNode []; Demo.svgNode []] []
                (Demo.svgNode [("unicode", "0x41")]) (Demo.svgNode [])
                Demo.afterExplicit Demo.afterExplicit Demo.fourth).
  assert (unicode Demo.fourth = 0x42) as Hno; [|discriminate Hno].
  apply Hclaim; vm_compute; reflexivity.
Qed.

(** ** Icons listed after one that asks for 0x41 *)

Section ServingFacts.
Context `{Externals}.

#[local] Opaque getUnique getUniqueUnicode.

(** A step that keeps the icons lists no icon. *)
Lemma kept_serving before after :
  outputs after = outputs before → registry_kept before after →
  serving_step before after.
Proof.
  intros Hout Hkept. split; [split; [done | by left]|].
  intros icon Hicons. destruct Hkept as (Hsame & _). rewrite Hsame in Hicons.
  apply (f_equal length) in Hicons. rewrite length_app in Hicons.
  simpl in Hicons. lia.
Qed.

Lemma processNode_serving icon path result :
  rtc serving_step result (processNode icon path result).
Proof.
  destruct (processNode_registry icon path result) as [[_ ->]|[Hsvg He]];
    [constructor|].
  apply rtc_once. split.
  - split; [|by right].
    unfold processNode. rewrite decide_True by done.
    destruct (getUnique _ (iconNames result)) as [iconName' iconNames'].
    destruct (getUnique _ (classNames result)) as [className' classNames'].
    destruct (attribute icon "unicode");
      by destruct (getUniqueUnicode _ (unicodes result)).
  - intros new Hicons (node & Hobject & Hasks).
    assert (node = icon) as ->.
    { revert Hicons Hobject. unfold processNode. rewrite decide_True by done.
      destruct (getUnique _ (iconNames result)) as [iconName' iconNames'].
      destruct (getUnique _ (classNames result)) as [className' classNames'].
      destruct (attribute icon "unicode");
        destruct (getUniqueUnicode _ (unicodes result)); simpl;
        intros [_ [= <-]]%app_inj_tail; simpl; congruence. }
    by apply explicit_0x41_registered.
Qed.

Lemma processFile_serving path result fs after :
  processFile path result fs = Ok after → rtc serving_step result after.
Proof.
  unfold processFile. destruct (readText fs path) as [content|]; [|done]. simpl.
  destruct (XmlDocument content) as [rootNode|]; [|done]. simpl.
  intros [= <-]. eapply rtc_l; [|apply processNode_serving].
  by apply kept_serving.
Qed.

Lemma processFiles_serving paths fs : ∀ result after,
  processFiles paths result fs = Ok after → rtc serving_step result after.
Proof.
  induction paths as [|fullPath paths IH]; intros result after; simpl.
  - intros [= <-]. constructor.
  - destruct (processFile fullPath result fs) as [next|] eqn:Ef; [|done]. simpl.
    intros Hrest. etrans; [by eapply processFile_serving | by apply IH].
Qed.

Lemma processChild_serving childNode path result fs after :
  processChild childNode path result fs = Ok after →
  rtc serving_step result after.
Proof.
  unfold processChild. destruct (decide (name childNode = Some "svg"));
    [|intros [= <-]; constructor].
  destruct (attribute childNode "src") as [src|];
    [|intros [= <-]; apply processNode_serving].
  destruct (isGlob src); [|apply processFile_serving].
  destruct (glob fs src (getDir path)) as [fullPaths|]; [|done]. simpl.
  intros Hfiles. eapply rtc_l; [|by eapply processFiles_serving].
  by apply kept_serving.
Qed.

Lemma processChildren_serving childNodes path fs : ∀ result after,
  processChildren childNodes path result fs = Ok after →
  rtc serving_step result after.
Proof.
  induction childNodes as [|childNode childNodes IH]; intros result after; simpl.
  - intros [= <-]. constructor.
  - destruct (processChild childNode path result fs) as [next|] eqn:Ec; [|done].
    simpl. intros Hrest. etrans; [by eapply processChild_serving | by apply IH].
Qed.

Lemma collectIconFont_serving rootNode path options fs after :
  collectIconFont rootNode path options fs = Ok after →
  ∃ start, rtc serving_step (newResult start) after.
Proof.
  unfold collectIconFont. intros Hrun. eexists.
  destruct (decide (name rootNode = Some "iconfont")).
  - destruct (children rootNode) as [childNodes|].
    + by eapply processChildren_serving.
    + injection Hrun as <-. constructor.
  - injection Hrun as <-. apply processNode_serving.
Qed.

Lemma processSource_serving source result fs after :
  processSource source result fs = Ok after → rtc serving_step result after.
Proof.
  destruct source as [path|source]; [apply processFile_serving|].
  unfold processSource, ownProperty. intros Hrun.
  eapply rtc_l;
    [apply (kept_serving result (push_dependency result (Source.path source)));
     by repeat split|].
  apply rtc_once. split.
  - destruct (Source.content source) as [content|]; simpl in Hrun;
      [|destruct (readText fs (Source.path source)) as [content|]; [|done]];
      simpl in Hrun; revert Hrun;
      destruct (getUnique _ (iconNames result)) as [iconName' iconNames'] eqn:En;
      destruct (getUnique _ (classNames result)) as [className' classNames'] eqn:Ec;
      destruct (getUniqueUnicode _ (unicodes result)) as [unicode' unicodes'] eqn:Eu;
      apply getUnique_pair in En as [Hn ->];
      apply getUnique_pair in Ec as [Hc ->];
      apply getUniqueUnicode_pair in Eu as [Hu ->];
      intros [= <-]; (split; [done|]); right;
      eexists; simpl; repeat split; done.
  - intros icon Hicon (node & Hobject & _). exfalso. revert Hicon Hobject.
    destruct (Source.content source) as [content|]; simpl in Hrun;
      [|destruct (readText fs (Source.path source)) as [content|]; [|done]];
      simpl in Hrun; revert Hrun;
      destruct (getUnique _ (iconNames result)) as [iconName' iconNames'];
      destruct (getUnique _ (classNames result)) as [className' classNames'];
      destruct (getUniqueUnicode _ (unicodes result)) as [unicode' unicodes'];
      intros [= <-]; simpl; intros [_ <-]%app_inj_tail; done.
Qed.

Lemma processSources_serving sources fs : ∀ result after,
  processSources sources result fs = Ok after → rtc serving_step result after.
Proof.
  induction sources as [|source sources IH]; intros result after; simpl.
  - intros [= <-]. constructor.
  - destruct (processSource source result fs) as [next|] eqn:Es; [|done].
    simpl. intros Hrest. etrans; [by eapply processSource_serving | by apply IH].
Qed.

End ServingFacts.

Lemma serving_steps_collection before after :
  rtc serving_step before after → rtc collection_step before after.
Proof.
  induction 1 as [|a b c [Hstep _] _ IH]; [constructor|]. by eapply rtc_l.
Qed.

Lemma served0x41_new start : served0x41 (newResult start).
Proof. intros [|] ? ? Hnil; discriminate Hnil. Qed.

Lemma serving_steps_served before after :
  rtc serving_step before after →
  registry_exact before → served0x41 before → served0x41 after.
Proof.
  induction 1 as [|a b c [[Hout Hstep] Hserve] _ IH]; intros Hexact Hserved;
    [done|].
  assert (registry_exact b) as Hexact'.
  { apply (collection_steps_exact a); [by apply rtc_once|done]. }
  apply IH; [done|].
  destruct Hstep as [(Hicons & _)|(new & Hicons & _)].
  - intros before icon rest. rewrite Hicons. apply Hserved.
  - intros before icon rest Hsplit Hasks. rewrite Hicons in Hsplit.
    destruct (decide (rest = [])) as [->|Hrest].
    + apply (app_inj_tail (icons a) before new icon) in Hsplit as [<- <-].
      specialize (Hserve new Hicons Hasks).
      destruct Hexact' as (_ & _ & Hu). rewrite Hu, Hicons in Hserve.
      by apply elem_of_list_to_set in Hserve.
    + destruct (exists_last Hrest) as (rest' & last & ->).
      rewrite app_comm_cons, app_assoc in Hsplit.
      apply app_inj_tail in Hsplit as [Hsplit _].
      by apply (Hserved before icon rest').
Qed.

(** In a registry whose code points are those of the listed icons, all
    different, an icon listed after one that asks for 0x41 has neither 0x41
    nor the code point of an icon listed before it. *)
Lemma served_later (result : CompileIconFontResult) before explicit between
    auto rest :
  registry_sound result → served0x41 result →
  icons result = before ++ explicit :: between ++ auto :: rest →
  asks0x41 explicit →
  unicode auto ≠ 0x41
  ∧ ∀ previous, previous ∈ before ++ explicit :: between →
      unicode previous ≠ unicode auto.
Proof.
  intros [(_ & _ & Hnd) _] Hserved Hsplit Hasks.
  specialize (Hserved before explicit (between ++ auto :: rest) Hsplit Hasks).
  rewrite Hsplit in Hnd.
  replace (before ++ explicit :: between ++ auto :: rest)
    with ((before ++ explicit :: between) ++ auto :: rest) in Hnd
    by (by rewrite <- app_assoc).
  rewrite map_app in Hnd. apply list.NoDup_app in Hnd as (_ & Hdisjoint & _).
  assert (∀ previous, previous ∈ before ++ explicit :: between →
            unicode previous ≠ unicode auto) as Hearlier.
  { intros previous Hin Heq. apply (Hdisjoint (unicode previous)).
    - apply list_elem_of_fmap. by exists previous.
    - rewrite Heq. simpl. left. }
  split; [|done].
  apply list_elem_of_fmap in Hserved as (holder & Hcode & Hin).
  intros Heq. apply (Hearlier holder); [|congruence].
  apply elem_of_app in Hin as [Hin|Hin%list_elem_of_singleton].
  - apply elem_of_app. by left.
  - subst holder. apply elem_of_app. right. left.
Qed.

(** C7, amended. In every collection that returns, of either entry point
    and whether its icons are inline, come from files or from patterns, an
    icon listed after one that asks for [unicode="0x41"] (an automatic icon
    in particular) does not have 0x41, nor the code point of any icon listed
    before it.  If the cursor stands at 0x41, which is registered, when an
    automatic icon is allocated, from an [svg] node or from a source object,
    the icon is flagged [autoUnicode] and receives the first free code point
    from 0x42 on, which is 0x42 when 0x42 is free. *)
Theorem auto_icon_after_explicit_0x41 `{Externals} :
  (∀ rootNode path options fs collected before explicit between auto rest,
     collectIconFont rootNode path options fs = Ok collected →
     icons collected = before ++ explicit :: between ++ auto :: rest →
     asks0x41 explicit →
     unicode auto ≠ 0x41
     ∧ ∀ previous, previous ∈ before ++ explicit :: between →
         unicode previous ≠ unicode auto)
  ∧ (∀ sources options fs collected before explicit between auto rest,
       collectSources sources options fs = Ok collected →
       icons collected = before ++ explicit :: between ++ auto :: rest →
       asks0x41 explicit →
       unicode auto ≠ 0x41
       ∧ ∀ previous, previous ∈ before ++ explicit :: between →
           unicode previous ≠ unicode auto)
  ∧ (∀ auto path result,
       name auto = Some "svg" →
       attribute auto "unicode" = None →
       startUnicode result = Num 0x41 →
       0x41 ∈ unicodes result →
       ∃ new : SVGIcon,
         icons (processNode auto path result) = icons result ++ [new]
         ∧ autoUnicode new = true
         ∧ 0x42 ≤ unicode new
         ∧ (unicode new ∉ unicodes result)
         ∧ (∀ k, 0x42 ≤ k < unicode new → k ∈ unicodes result)
         ∧ (0x42 ∉ unicodes result → unicode new = 0x42))
  ∧ (∀ source result fs after,
       processSource (Source.Object source) result fs = Ok after →
       startUnicode result = Num 0x41 →
       0x41 ∈ unicodes result →
       ∃ new : SVGIcon,
         icons after = icons result ++ [new]
         ∧ autoUnicode new = true
         ∧ 0x42 ≤ unicode new
         ∧ (unicode new ∉ unicodes result)
         ∧ (∀ k, 0x42 ≤ k < unicode new → k ∈ unicodes result)
         ∧ (0x42 ∉ unicodes result → unicode new = 0x42)).
Proof.
  repeat match goal with |- _ ∧ _ => split end.
  - intros rootNode path options fs collected before explicit between auto rest
      Hrun Hsplit Hasks.
    destruct (collectIconFont_serving _ _ _ _ _ Hrun) as [start Hsteps].
    apply (served_later collected before explicit between auto rest);
      [|by eapply serving_steps_served;
          [| apply registry_exact_new | apply served0x41_new] |done|done].
    eapply collection_steps_sound;
      [by apply serving_steps_collection | apply registry_sound_new].
  - intros sources options fs collected before explicit between auto rest
      Hrun Hsplit Hasks.
    apply processSources_serving in Hrun as Hsteps.
    apply (served_later collected before explicit between auto rest);
      [|by eapply serving_steps_served;
          [| apply registry_exact_new | apply served0x41_new] |done|done].
    eapply collection_steps_sound;
      [by apply serving_steps_collection | apply registry_sound_new].
  - intros auto path result Hsvg Hauto Hcursor Htaken.
    destruct (processNode_auto auto path result Hsvg Hauto)
      as (new & Hicons & Hflag & Hcode & _).
    rewrite Hcursor in Hcode.
    destruct (auto_from_cursor 0x41 (unicodes result) Htaken)
      as (Hle & Hbelow & Hfree).
    exists new. rewrite Hcode.
    repeat match goal with |- _ ∧ _ => split end; try done.
    apply getUniqueUnicode_fresh.
  - intros source result fs after
      (new & Hicons & _ & _ & Hcode & Hflag & _)%processSource_object
      Hcursor Htaken.
    rewrite Hcursor in Hcode.
    destruct (auto_from_cursor 0x41 (unicodes result) Htaken)
      as (Hle & Hbelow & Hfree).
    exists new. rewrite Hcode.
    repeat match goal with |- _ ∧ _ => split end; try done.
    apply getUniqueUnicode_fresh.
Qed.

(** The manifest with the cursor at 0x40, whose third icon asks for 0x41
    and whose fourth is automatic; and an automatic icon after the first
    three, where the cursor stands at 0x41 and 0x42 is taken. *)
Lemma auto_icon_after_explicit_0x41_witness :
  (unicode Demo.fourth ≠ 0x41
   ∧ ∀ previous,
       previous ∈ firstn 2 (icons Demo.afterExplicit) ++ Demo.third :: [] →
       unicode previous ≠ unicode Demo.fourth)
  ∧ ∃ new : SVGIcon,
      icons (processNode (H := Demo.externals) (Demo.svgNode [])
               "icons.iconfont" Demo.afterExplicit)
      = icons Demo.afterExplicit ++ [new]
      ∧ autoUnicode new = true
      ∧ 0x42 ≤ unicode new
      ∧ (unicode new ∉ unicodes Demo.afterExplicit)
      ∧ (∀ k, 0x42 ≤ k < unicode new → k ∈ unicodes Demo.afterExplicit)
      ∧ (0x42 ∉ unicodes Demo.afterExplicit → unicode new = 0x42).
Proof.
  destruct (auto_icon_after_explicit_0x41 (H := Demo.externals))
    as (Hmanifest & _ & Hcursor & _).
  split.
  - apply (Hmanifest Demo.cursorAt41 "icons.iconfont" None Demo.fs
             (Demo.value (collectIconFont (H := Demo.externals)
                            Demo.cursorAt41 "icons.iconfont" None Demo.fs))
             (firstn 2 (icons Demo.afterExplicit)) Demo.third []
             Demo.fourth []).
    + vm_compute. reflexivity.
    + vm_compute. reflexivity.
    + exists (Demo.svgNode [("unicode", "0x41")]). split; reflexivity.
  - apply (Hcursor (Demo.svgNode []) "icons.iconfont" Demo.afterExplicit).
    + reflexivity.
    + reflexivity.
    + reflexivity.
    + apply (bool_decide_unpack (0x41 ∈ unicodes Demo.afterExplicit)).
      vm_compute. exact I.
Defined.

(** ** The manifest with two icons named [a] *)

Section NamingFacts.
Context `{Externals}.

Lemma suffixed_differs (content : string) : content +:+ "-2" ≠ content.
Proof.
  intros Heq. apply (f_equal String.length) in Heq.
  rewrite length_append in Heq. simpl in Heq. lia.
Qed.

#[local] Opaque getUnique getUniqueUnicode.

(** An [svg] node that has none of the attributes [id], [class] and
    [unicode]. *)
Lemma processNode_plain icon path result :
  name icon = Some "svg" →
  attribute icon "id" = None →
  attribute icon "class" = None →
  attribute icon "unicode" = None →
  ∃ new : SVGIcon,
    icons (processNode icon path result) = icons result ++ [new]
    ∧ iconName new = fst (getUnique (getName path) (iconNames result))
    ∧ className new = fst (getUnique (iconName new) (classNames result))
    ∧ unicode new = fst (getUniqueUnicode (startUnicode result) (unicodes result))
    ∧ autoUnicode new = true
    ∧ iconNames (processNode icon path result) = {[iconName new]} ∪ iconNames result
    ∧ classNames (processNode icon path result)
      = {[className new]} ∪ classNames result
    ∧ unicodes (processNode icon path result) = {[unicode new]} ∪ unicodes result
    ∧ startUnicode (processNode icon path result) = Num (unicode new).
Proof.
  intros Hsvg Hid Hclass Hunicode. unfold processNode.
  rewrite decide_True by done. rewrite Hid, Hclass, Hunicode. simpl.
  pose proof (getUnique_set (getName path) (iconNames result)) as Hn.
  destruct (getUnique (getName path) (iconNames result))
    as [iconName' iconNames'] eqn:En.
  pose proof (getUnique_set iconName' (classNames result)) as Hc.
  destruct (getUnique iconName' (classNames result))
    as [className' classNames'] eqn:Ec.
  pose proof (getUniqueUnicode_set (startUnicode result) (unicodes result)) as Hu.
  destruct (getUniqueUnicode (startUnicode result) (unicodes result))
    as [unicode' unicodes'] eqn:Eu.
  simpl in *. subst. eexists.
  split; [reflexivity|].
  repeat match goal with |- _ ∧ _ => split end;
    (simpl; rewrite ?Ec; reflexivity).
Qed.

End NamingFacts.

(** C5, on the code. For the manifest
    [<iconfont><svg name="a"/><svg name="a"/></iconfont>] compiled without
    caller options, the result lists exactly two icons, with the code
    points 0xEA01 and 0xEA02 and [autoUnicode] set; but their names are the
    base name of the manifest path and that name followed by [-2]: the
    [name] attribute is not read. *)
Theorem two_icons_named_a `{Externals} (content path : string)
    (formats : option (list Format.t)) (fs : FileSystem)
    (after : CompileIconFontResult) :
  XmlDocument content = Ok Demo.twoNamedA →
  returned (compileIconFont content path formats None fs) = Ok after →
  map (λ icon, (iconName icon, unicode icon, autoUnicode icon)) (icons after)
  = [(getName path, 0xea01, true); (getName path +:+ "-2", 0xea02, true)].
Proof.
  intros Hparse
    (rootNode & collected & Hroot & Hcollect & Hgen & _)%compileIconFont_returned.
  rewrite Hparse in Hroot. injection Hroot as <-.
  apply generateIconFont_generated in Hgen
    as (_ & _ & _ & _ & _ & _ & _ & _ & _ & (-> & _) & _).
  unfold collectIconFont in Hcollect. simpl in Hcollect.
  change (Ok (processNode (Demo.svgNode [("name", "a")]) path
                (processNode (Demo.svgNode [("name", "a")]) path
                   (newResult (Num 0xea01)))) = Ok collected) in Hcollect.
  injection Hcollect as <-.
  set (first := processNode (Demo.svgNode [("name", "a")]) path
                  (newResult (Num 0xea01))).
  destruct (processNode_plain (Demo.svgNode [("name", "a")]) path
              (newResult (Num 0xea01)) eq_refl eq_refl eq_refl eq_refl)
    as (one & Hicons1 & Hname1 & _ & Hcode1 & Hauto1 & Hnames1 & _ & Hcodes1
        & Hcursor1).
  fold first in Hicons1, Hnames1, Hcodes1, Hcursor1.
  destruct (processNode_plain (Demo.svgNode [("name", "a")]) path first
              eq_refl eq_refl eq_refl eq_refl)
    as (two & Hicons2 & Hname2 & _ & Hcode2 & Hauto2 & _).
  rewrite Hicons2, Hicons1. simpl.
  rewrite getUnique_free in Hname1 by set_solver.
  assert (unicode one = 0xea01) as Hone.
  { rewrite Hcode1. simpl.
    destruct (getUniqueUnicode_least 0xea01 ∅) as (Hle & _ & Hbelow).
    destruct (decide (fst (getUniqueUnicode (Num 0xea01) ∅) = 0xea01)); [done|].
    assert (0xea01 ∈ (∅ : gset Z)) by (apply Hbelow; lia). set_solver. }
  rewrite Hnames1, Hname1 in Hname2.
  rewrite getUnique_second in Hname2;
    [|set_solver | pose proof (suffixed_differs (getName path)); set_solver].
  rewrite Hcodes1, Hcursor1, Hone in Hcode2.
  destruct (auto_from_cursor 0xea01
              ({[0xea01]} ∪ unicodes (newResult (Num 0xea01))))
    as (_ & _ & Hnext); [set_solver|].
  rewrite Hnext in Hcode2 by (simpl; set_solver).
  by rewrite Hname1, Hone, Hauto1, Hname2, Hcode2, Hauto2.
Qed.

(** The manifest at the path [icons.iconfont]: the icons are named
    [icons] and [icons-2]. *)
Lemma two_icons_named_a_witness :
  map (λ icon, (iconName icon, unicode icon, autoUnicode icon))
    (icons (Demo.value
              (returned (compileIconFont (H := Demo.externals)
                           Demo.twoNamedAText "icons.iconfont" None None
                           Demo.fs))))
  = [("icons", 0xea01, true); ("icons-2", 0xea02, true)].
Proof.
  apply (two_icons_named_a (H := Demo.externals) Demo.twoNamedAText
           "icons.iconfont" None Demo.fs).
  - reflexivity.
  - vm_compute. reflexivity.
Defined.

(** The manifest
    [<iconfont startUnicode="0x40"><svg/><svg/><svg unicode="0x41"/><svg/></iconfont>]
    run through collection: the icon with the explicit 0x41 gets 0x42, and
    the automatic icon after it gets 0x43. *)
Example cursor_manifest_code_points :
  map (λ icon, (unicode icon, autoUnicode icon))
    (icons (Demo.value
              (collectIconFont (H := Demo.externals) Demo.cursorAt41
                 "icons.iconfont" None Demo.fs)))
  = [(0x40, true); (0x41, true); (0x42, false); (0x43, true)].
Proof. vm_compute. reflexivity. Qed.

(** * Further properties *)

(** ** The registry holds the identities of the icons, in visiting order *)

(** X1. When either entry point returns, each registry set is exactly the
    set of that identity over the listed icons, so each has as many
    elements as there are icons. *)
Theorem registry_holds_the_icons `{Externals} :
  (∀ content path formats options fs after,
     returned (compileIconFont content path formats options fs) = Ok after →
     registry_exact after
     ∧ size (iconNames after) = length (icons after)
     ∧ size (classNames after) = length (icons after)
     ∧ size (unicodes after) = length (icons after))
  ∧ (∀ sources formats options fs after,
       returned (compileIconFontFromSources sources formats options fs) = Ok after →
       registry_exact after
       ∧ size (iconNames after) = length (icons after)
       ∧ size (classNames after) = length (icons after)
       ∧ size (unicodes after) = length (icons after)).
Proof.
  assert (∀ start collected after flags options,
            rtc collection_step (newResult start) collected →
            generated flags collected options after →
            registry_exact after
            ∧ size (iconNames after) = length (icons after)
            ∧ size (classNames after) = length (icons after)
            ∧ size (unicodes after) = length (icons after)) as Hboth.
  { intros start collected after flags options Hsteps Hgen.
    pose proof (collection_steps_exact _ _ Hsteps (registry_exact_new start))
      as Hexact.
    pose proof (collection_steps_sound _ _ Hsteps (registry_sound_new start))
      as [(Dn & Dc & Du) _].
    destruct Hgen as (_ & _ & _ & _ & _ & _ & _ & _ & _ & Hkept & _).
    destruct Hkept as (Hi & Hn & Hc & Hu), Hexact as (En & Ec & Eu).
    unfold registry_exact. rewrite Hi, Hn, Hc, Hu. split; [done|].
    rewrite En, Ec, Eu, !distinct_size, !length_map by done. done. }
  split.
  - intros content path formats options fs after
      (rootNode & collected & _ & Hc & Hg & _)%compileIconFont_returned.
    apply collectIconFont_steps in Hc as [start Hsteps].
    apply generateIconFont_generated in Hg. by eapply Hboth.
  - intros sources formats options fs after
      (collected & generateOptions & Hc & Hg & _)%compileIconFontFromSources_returned.
    apply processSources_steps in Hc.
    apply generateIconFont_generated in Hg. by eapply Hboth.
Qed.

(** X2. The icon list is only ever appended to: what is listed before a
    walk over manifest children, or over sources, is listed after it in
    the same places. *)
Theorem icons_are_appended `{Externals} :
  (∀ childNodes path result fs after,
     processChildren childNodes path result fs = Ok after →
     icons result `prefix_of` icons after)
  ∧ (∀ sources result fs after,
       processSources sources result fs = Ok after →
       icons result `prefix_of` icons after).
Proof.
  split.
  - intros childNodes path result fs after Hrun.
    by eapply collection_steps_prefix, processChildren_steps.
  - intros sources result fs after Hrun.
    by eapply collection_steps_prefix, processSources_steps.
Qed.

(** ** Dependencies *)

Section DependencyFacts.
Context `{Externals}.

#[local] Opaque getUnique getUniqueUnicode.

Lemma processNode_dependencies icon path result :
  dependencies (processNode icon path result) = dependencies result
  ∧ globDependencies (processNode icon path result) = globDependencies result.
Proof.
  unfold processNode. destruct (decide (name icon = Some "svg")); [|done].
  destruct (getUnique _ (iconNames result)) as [iconName' iconNames'].
  destruct (getUnique _ (classNames result)) as [className' classNames'].
  destruct (attribute icon "unicode");
    by destruct (getUniqueUnicode _ (unicodes result)).
Qed.

Lemma processFile_dependencies path result fs after :
  processFile path result fs = Ok after →
  dependencies after = dependencies result ++ [path]
  ∧ globDependencies after = globDependencies result.
Proof.
  unfold processFile. destruct (readText fs path) as [content|]; [|done]. simpl.
  destruct (XmlDocument content) as [rootNode|]; [|done]. simpl.
  intros [= <-].
  by destruct (processNode_dependencies rootNode path (push_dependency result path))
    as [-> ->].
Qed.

Lemma processFiles_dependencies paths fs : ∀ result after,
  processFiles paths result fs = Ok after →
  dependencies after = dependencies result ++ paths
  ∧ globDependencies after = globDependencies result.
Proof.
  induction paths as [|fullPath paths IH]; intros result after; simpl.
  - intros [= <-]. by rewrite app_nil_r.
  - destruct (processFile fullPath result fs) as [next|] eqn:Ef; [|done]. simpl.
    intros Hrest. apply processFile_dependencies in Ef as [Hd Hg].
    apply IH in Hrest as [Hd' Hg']. rewrite Hd', Hg', Hd, Hg.
    by rewrite <- app_assoc.
Qed.

Lemma processChild_dependencies childNode path result fs after :
  processChild childNode path result fs = Ok after →
  dependencies after = dependencies result ++ visitedFiles fs path childNode
  ∧ globDependencies after
    = globDependencies result ++ visitedGlobs path childNode.
Proof.
  unfold processChild, visitedFiles, visitedGlobs.
  destruct (decide (name childNode = Some "svg"));
    [|intros [= <-]; by rewrite !app_nil_r].
  destruct (attribute childNode "src") as [src|].
  - destruct (isGlob src).
    + destruct (glob fs src (getDir path)) as [fullPaths|]; [|done]. simpl.
      intros Hfiles. by apply processFiles_dependencies in Hfiles as [-> ->].
    + intros Hfile. apply processFile_dependencies in Hfile as [-> ->].
      by rewrite app_nil_r.
  - intros [= <-]. rewrite !app_nil_r. apply processNode_dependencies.
Qed.

Lemma processSource_dependencies source result fs after :
  processSource source result fs = Ok after →
  dependencies after = dependencies result ++ [sourcePath source]
  ∧ globDependencies after = globDependencies result.
Proof.
  destruct source as [path|source]; [apply processFile_dependencies|].
  unfold processSource, ownProperty, sourcePath.
  destruct (Source.content source) as [content|]; simpl;
    [|destruct (readText fs (Source.path source)) as [content|]; [|done]];
    simpl;
    destruct (getUnique _ (iconNames result)) as [iconName' iconNames'];
    destruct (getUnique _ (classNames result)) as [className' classNames'];
    destruct (getUniqueUnicode _ (unicodes result)) as [unicode' unicodes'];
    by intros [= <-].
Qed.

End DependencyFacts.

(** X3. A walk over manifest children that returns has added to
    [dependencies], in document order, exactly the files it read (the matches
    of each pattern, the file of each plain [src], nothing for inline icons),
    and to [globDependencies] each pattern once with the directory of the
    manifest. *)
Theorem manifest_dependencies `{Externals} (childNodes : list SVGNode)
    (path : string) (fs : FileSystem) (result after : CompileIconFontResult) :
  processChildren childNodes path result fs = Ok after →
  dependencies after
  = dependencies result ++ concat (map (visitedFiles fs path) childNodes)
  ∧ globDependencies after
    = globDependencies result ++ concat (map (visitedGlobs path) childNodes).
Proof.
  revert result. induction childNodes as [|childNode childNodes IH];
    intros result; simpl.
  - intros [= <-]. by rewrite !app_nil_r.
  - destruct (processChild childNode path result fs) as [next|] eqn:Ec; [|done].
    simpl. intros Hrest. apply processChild_dependencies in Ec as [Hd Hg].
    apply IH in Hrest as [-> ->]. by rewrite Hd, Hg, <- !app_assoc.
Qed.

(** X4. A compile from sources that returns lists as dependencies the
    paths of the sources, one per source and in their order, whether a
    source brought its content along or not; it records no pattern. *)
Theorem sources_dependencies `{Externals} (sources : list Source.t)
    (formats : option (list Format.t)) (options : option IconFontOptions)
    (fs : FileSystem) (after : CompileIconFontResult) :
  returned (compileIconFontFromSources sources formats options fs) = Ok after →
  dependencies after = map sourcePath sources ∧ globDependencies after = [].
Proof.
  assert (∀ sources result collected,
            processSources sources result fs = Ok collected →
            dependencies collected = dependencies result ++ map sourcePath sources
            ∧ globDependencies collected = globDependencies result) as Hall.
  { clear. induction sources as [|source sources IH];
      intros result collected; simpl.
    - intros [= <-]. by rewrite app_nil_r.
    - destruct (processSource source result fs) as [next|] eqn:Es; [|done].
      simpl. intros Hrest. apply processSource_dependencies in Es as [Hd Hg].
      apply IH in Hrest as [-> ->]. by rewrite Hd, Hg, <- app_assoc. }
  intros (collected & generateOptions & Hc & Hg & _)
    %compileIconFontFromSources_returned.
  apply generateIconFont_generated in Hg
    as (_ & _ & _ & _ & _ & _ & _ & _ & _ & _ & _ & -> & ->).
  by apply Hall in Hc as [-> ->].
Qed.

(** ** Sources given as objects *)

Section ObjectFacts.
Context `{Externals}.

Lemma getUniqueUnicode_free (start : Z) (set : gset Z) :
  start ∉ set → fst (getUniqueUnicode (Num start) set) = start.
Proof. intros Hfree. unfold getUniqueUnicode. simpl. by rewrite decide_False. Qed.

Lemma getUniqueUnicode_NaN (set : gset Z) :
  getUniqueUnicode NaN set = getUniqueUnicode (Num 0xea01) set.
Proof. reflexivity. Qed.

#[local] Opaque getUnique getUniqueUnicode.

(** The state of a collection that has listed [count] icons, all of them
    automatic, from the code point [start] on. *)
Definition consecutive (start : Z) (count : nat)
    (result : CompileIconFontResult) : Prop :=
  map unicode (icons result) = seqZ start (Z.of_nat count)
  ∧ unicodes result = list_to_set (seqZ start (Z.of_nat count))
  ∧ fst (getUniqueUnicode (startUnicode result) (unicodes result))
    = start + Z.of_nat count
  ∧ iconNames result = classNames result
  ∧ Forall (λ icon, autoUnicode icon = true ∧ className icon = iconName icon
                    ∧ title icon = None) (icons result).

Lemma consecutive_step start count source result fs after :
  consecutive start count result →
  processSource (Source.Object source) result fs = Ok after →
  consecutive start (S count) after.
Proof.
  intros (Hcodes & Hset & Hnext & Hsame & Hall)
    (new & Hi & Hname & Hclass & Hcode & Hauto & Htitle & Hns & Hcs & Hus & Hcur)
    %processSource_object.
  assert (className new = iconName new) as Hcn.
  { rewrite Hclass. apply getUnique_free. rewrite <- Hsame, Hname.
    apply getUnique_fresh. }
  rewrite Hnext in Hcode.
  unfold consecutive. rewrite Hi, Hus, Hcur, Hns, Hcs, map_app, seqZ_S. simpl.
  rewrite list_to_set_snoc, <- Hset, Hcode, Hcn, Hsame.
  repeat match goal with |- _ ∧ _ => split end.
  - by rewrite Hcodes.
  - done.
  - destruct (auto_from_cursor (start + Z.of_nat count)
                ({[start + Z.of_nat count]} ∪ unicodes result))
      as (_ & _ & Hfree); [set_solver|].
    rewrite Hfree; [lia|]. rewrite Hset.
    intros [Hin|Hin]%elem_of_union.
    + apply elem_of_singleton in Hin. lia.
    + apply elem_of_list_to_set, elem_of_seqZ in Hin. lia.
  - done.
  - apply Forall_app. split; [done|]. by repeat constructor.
Qed.

Lemma consecutive_steps start sources fs : ∀ count result after,
  Forall isObject sources →
  consecutive start count result →
  processSources sources result fs = Ok after →
  consecutive start (count + length sources) after.
Proof.
  induction sources as [|source sources IH]; intros count result after Hobj Hinv;
    simpl.
  - intros [= <-]. by rewrite Nat.add_0_r.
  - destruct (processSource source result fs) as [next|] eqn:Es; [|done]. simpl.
    apply list.Forall_cons in Hobj as [Hsource Hobj].
    destruct source as [|source]; [done|]. intros Hrest.
    replace (count + S (length sources))%nat with (S count + length sources)%nat
      by lia.
    eapply IH; [done | by eapply consecutive_step | done].
Qed.

End ObjectFacts.

(** Below 2^53, increments of doubles count like the integers. *)
Lemma iter_increment_exact (start : Z) (count : nat) :
  - 2 ^ 53 ≤ start → start + Z.of_nat count ≤ 2 ^ 53 →
  Nat.iter count Double.increment start = start + Z.of_nat count.
Proof.
  intros Hlow. induction count as [|count IH]; intros Hhigh; simpl; [lia|].
  rewrite IH by lia. rewrite increment_exact by lia. lia.
Qed.

(** X5. A compile from source objects that returns, with a start of the
    range (the caller's [startUnicode], or 0xEA01 when it is absent or NaN)
    and a number of sources that stay between -2^53 and 2^53, has given the
    icons the consecutive code points from the start on, in the order of the
    sources: each is the increment, as the program computes it, of the one
    before.  Every icon is flagged [autoUnicode], has its name as class name
    and no title. *)
Theorem source_objects_get_consecutive_code_points `{Externals}
    (sources : list Source.t) (formats : option (list Format.t))
    (options : option IconFontOptions) (fs : FileSystem)
    (after : CompileIconFontResult) :
  Forall isObject sources →
  - 2 ^ 53 ≤ sourcesStart options →
  sourcesStart options + Z.of_nat (length sources) ≤ 2 ^ 53 →
  returned (compileIconFontFromSources sources formats options fs) = Ok after →
  map unicode (icons after)
  = seqZ (sourcesStart options) (Z.of_nat (length sources))
  ∧ map unicode (icons after)
    = map (λ turns, Nat.iter turns Double.increment (sourcesStart options))
        (seq 0 (length sources))
  ∧ Forall (λ icon, autoUnicode icon = true ∧ className icon = iconName icon
                    ∧ title icon = None) (icons after).
Proof.
  intros Hobj Hlow Hhigh (collected & generateOptions & Hc & Hg & _)
    %compileIconFontFromSources_returned.
  apply generateIconFont_generated in Hg
    as (_ & _ & _ & _ & _ & _ & _ & _ & _ & (-> & _) & _).
  unfold collectSources in Hc.
  assert (consecutive (sourcesStart options) 0
            (newResult ((options ≫= Options.startUnicode) ??! Num 59905)))
    as Hinit.
  { unfold consecutive. simpl.
    repeat match goal with |- _ ∧ _ => split end; try done.
    rewrite Z.add_0_r. unfold sourcesStart.
    destruct (options ≫= Options.startUnicode) as [[|z]|]; simpl;
      rewrite ?getUniqueUnicode_NaN; by apply getUniqueUnicode_free. }
  destruct (consecutive_steps (sourcesStart options) sources fs 0 _ _ Hobj
              Hinit Hc) as (Hcodes & _ & _ & _ & Hall).
  simpl in Hcodes. split; [done|]. split; [|done].
  rewrite Hcodes. unfold seqZ. rewrite Nat2Z.id. apply map_ext_in.
  intros turns Hin%in_seq. rewrite iter_increment_exact by lia. lia.
Qed.

(** ** Sources with one and the same name *)

Section SameNameFacts.
Context `{Externals}.

(** The names given to [count] icons that all ask for [name]. *)
Definition numbered (name : string) (count : nat) : list string :=
  match count with
  | O => []
  | S more =>
      name :: map (λ i : nat, name +:+ "-" +:+ pretty (N.of_nat i)) (seq 2 more)
  end.

Lemma candidate_differs (content : string) (i : N) : candidate content i ≠ content.
Proof.
  intros Heq. apply (f_equal String.length) in Heq. unfold candidate in Heq.
  rewrite !length_append in Heq. simpl in Heq. lia.
Qed.

Lemma elem_of_numbered name count (text : string) :
  text ∈ numbered name count
  ↔ (0 < count)%nat
    ∧ (text = name
       ∨ ∃ i : nat, (2 ≤ i < S count)%nat ∧ text = candidate name (N.of_nat i)).
Proof.
  destruct count as [|more]; simpl.
  - split; [by intros ?%elem_of_nil | lia].
  - rewrite elem_of_cons, list_elem_of_fmap. split.
    + intros [->|(i & -> & Hi%elem_of_seq)]; (split; [lia|]); [by left|].
      right. exists i. split; [lia | done].
    + intros [_ [->|(i & Hi & ->)]]; [by left|]. right. exists i.
      split; [done|]. apply elem_of_seq. lia.
Qed.

Lemma numbered_S name count :
  numbered name (S count)
  = numbered name count
    ++ [if decide (count = 0%nat) then name
        else candidate name (N.of_nat (S count))].
Proof.
  destruct count as [|more]; [done|]. rewrite decide_False by done.
  unfold numbered. rewrite seq_S, map_app.
  by replace (2 + more)%nat with (S (S more)) by lia.
Qed.

(** The name the next icon that asks for [name] receives. *)
Lemma getUnique_numbered name count :
  fst (getUnique name (list_to_set (numbered name count)))
  = if decide (count = 0%nat) then name else candidate name (N.of_nat (S count)).
Proof.
  destruct (decide (count = 0%nat)) as [->|Hpos].
  { apply getUnique_free. set_solver. }
  destruct (getUnique_taken name (list_to_set (numbered name count)))
    as (i & Hle & -> & Hfree & Hbelow).
  { apply elem_of_list_to_set, elem_of_numbered. split; [lia | by left]. }
  f_equal.
  assert (¬ (N.to_nat i < S count)%nat) as Hge.
  { intros Hlt. apply Hfree, elem_of_list_to_set, elem_of_numbered.
    split; [lia|]. right. exists (N.to_nat i). split; [lia|].
    by rewrite N2Nat.id. }
  destruct (decide (i = N.of_nat (S count))) as [|Hne]; [done|].
  assert (candidate name (N.of_nat (S count))
          ∈ (list_to_set (numbered name count) : gset string)) as Hin
    by (apply Hbelow; lia).
  apply elem_of_list_to_set, elem_of_numbered in Hin as [_ [Heq|(j & Hj & Heq)]].
  - by apply candidate_differs in Heq.
  - apply candidate_inj in Heq. lia.
Qed.

Lemma numbered_steps name sources fs : ∀ count result after,
  Forall (λ source, isObject source ∧ getName (sourcePath source) = name)
    sources →
  map iconName (icons result) = numbered name count →
  iconNames result = list_to_set (numbered name count) →
  processSources sources result fs = Ok after →
  map iconName (icons after) = numbered name (count + length sources).
Proof.
  induction sources as [|source sources IH];
    intros count result after Hall Hnames Hset; simpl.
  - intros [= <-]. by rewrite Nat.add_0_r.
  - destruct (processSource source result fs) as [next|] eqn:Es; [|done]. simpl.
    apply list.Forall_cons in Hall as [[Hobj Hname] Hall].
    destruct source as [|source]; [done|]. simpl in Hname. intros Hrest.
    apply processSource_object in Es
      as (new & Hi & Hnew & _ & _ & _ & _ & Hns & _).
    rewrite Hname, Hset, getUnique_numbered in Hnew.
    replace (count + S (length sources))%nat with (S count + length sources)%nat
      by lia.
    apply (IH (S count) next after Hall); [| |done].
    + rewrite Hi, map_app, Hnames, numbered_S. simpl. by rewrite Hnew.
    + rewrite Hns, Hset, numbered_S, list_to_set_snoc. by rewrite Hnew.
Qed.

End SameNameFacts.

(** X6. A compile from source objects whose paths all have the same base
    name, that returns, has named the first icon by that name and the
    following ones by the name with the suffixes [-2], [-3], ... in the
    order of the sources. *)
Theorem same_name_sources_are_numbered `{Externals} (name : string)
    (sources : list Source.t) (formats : option (list Format.t))
    (options : option IconFontOptions) (fs : FileSystem)
    (after : CompileIconFontResult) :
  Forall (λ source, isObject source ∧ getName (sourcePath source) = name)
    sources →
  returned (compileIconFontFromSources sources formats options fs) = Ok after →
  map iconName (icons after)
  = match length sources with
    | O => []
    | S more =>
        name
        :: map (λ i : nat, name +:+ "-" +:+ pretty (N.of_nat i)) (seq 2 more)
    end.
Proof.
  intros Hall (collected & generateOptions & Hc & Hg & _)
    %compileIconFontFromSources_returned.
  apply generateIconFont_generated in Hg
    as (_ & _ & _ & _ & _ & _ & _ & _ & _ & (-> & _) & _).
  by apply (numbered_steps name sources fs 0 _ _ Hall) in Hc.
Qed.

(** ** What a source object is read for *)

(** X7. Of a source object only [path] and [content] are read: two lists of
    sources that agree on these compile to the same result (and to the same
    calls), whatever [iconName], [className], [unicode], [autoUnicode] or
    [title] the objects carry. *)
Theorem source_properties_are_not_read `{Externals}
    (sources sources' : list Source.t) (formats : option (list Format.t))
    (options : option IconFontOptions) (fs : FileSystem) :
  Forall2 sameText sources sources' →
  compileIconFontFromSources sources formats options fs
  = compileIconFontFromSources sources' formats options fs.
Proof.
  intros Hsame. unfold compileIconFontFromSources, collectSources.
  assert (∀ result, processSources sources result fs
                    = processSources sources' result fs) as ->; [|done].
  induction Hsame as [|source source' sources sources' Hs _ IH]; [done|].
  intros result. simpl.
  assert (processSource source result fs = processSource source' result fs) as ->.
  { destruct source as [l|l], source' as [r|r]; try done.
    - by rewrite Hs.
    - destruct Hs as [Hpath Hcontent]. unfold processSource.
      by rewrite Hpath, Hcontent. }
  destruct (processSource source' result fs); simpl; [apply IH | done].
Qed.

(** ** Requests that activate the same artifacts *)

Lemma flags_by_get (flags flags' : Flags.t) :
  (∀ artifact, Flags.get flags artifact = Flags.get flags' artifact) →
  flags = flags'.
Proof.
  intros Hget. destruct flags, flags'.
  pose proof (Hget Format.svgFont). pose proof (Hget Format.ttf).
  pose proof (Hget Format.eot). pose proof (Hget Format.woff).
  pose proof (Hget Format.woff2). pose proof (Hget Format.js).
  pose proof (Hget Format.svg). pose proof (Hget Format.css).
  pose proof (Hget Format.html). simpl in *. by subst.
Qed.

(** X8. Only the set of activated artifacts matters to generation: two
    requests that activate the same artifacts (the same formats in another
    order, or repeated, or with implied formats spelled out) make both
    entry points do the same. *)
Theorem requests_with_the_same_artifacts `{Externals}
    (formats formats' : list Format.t) :
  (∀ artifact, activated formats artifact ↔ activated formats' artifact) →
  (∀ result options,
     generateIconFont result formats options
     = generateIconFont result formats' options)
  ∧ (∀ content path options fs,
       compileIconFont content path (Some formats) options fs
       = compileIconFont content path (Some formats') options fs)
  ∧ (∀ sources options fs,
       compileIconFontFromSources sources (Some formats) options fs
       = compileIconFontFromSources sources (Some formats') options fs).
Proof.
  intros Hsame.
  assert (Flags.of_formats formats = Flags.of_formats formats') as Hflags.
  { apply flags_by_get. intros artifact.
    pose proof (of_formats_activated formats artifact) as Hl.
    pose proof (of_formats_activated formats' artifact) as Hr.
    destruct (Flags.get (Flags.of_formats formats) artifact),
      (Flags.get (Flags.of_formats formats') artifact); try done.
    - symmetry. apply Hr, Hsame, Hl. done.
    - apply Hl, Hsame, Hr. done. }
  assert (∀ result options,
            generateIconFont result formats options
            = generateIconFont result formats' options) as Hgen.
  { intros result options. unfold generateIconFont. by rewrite Hflags. }
  split; [done|]. split.
  - intros content path options fs. unfold compileIconFont. simpl.
    destruct (XmlDocument content) as [rootNode|]; [|done]. simpl.
    destruct (collectIconFont rootNode path options fs); [|done]. simpl.
    by rewrite Hgen.
  - intros sources options fs. unfold compileIconFontFromSources. simpl.
    destruct (collectSources sources options fs); [|done]. simpl.
    by rewrite Hgen.
Qed.

(** ** The [round] attribute of the manifest root *)

(** X9. The options [compileIconFont] derives from the manifest root do
    not depend on a [round] attribute: the precision is read from the
    attribute [foroundntHeight]; without that attribute and without a
    caller's [round], the font stream works with 10e12 whatever [round] the
    manifest gives. *)
Theorem round_attribute_is_not_read `{Externals} (tag : option string)
    (attrs : gmap string string) (childNodes : option (list SVGNode))
    (text text' value path : string) (result : CompileIconFontResult)
    (options : option IconFontOptions) :
  manifestOptions (Node tag (Some (<["round" := value]> attrs)) childNodes text')
    path result options
  = manifestOptions (Node tag (Some attrs) childNodes text) path result options
  ∧ (attrs !! "foroundntHeight" = None →
     options ≫= Options.round = None →
     ∀ icons,
       Options.round
         (fontStreamOptions icons
            (manifestOptions
               (Node tag (Some (<["round" := value]> attrs)) childNodes text')
               path result options))
       = Some (Num 10000000000000)).
Proof.
  split.
  - unfold manifestOptions. simpl. by rewrite !lookup_insert_ne by done.
  - intros Habsent Hcaller icons. unfold fontStreamOptions, manifestOptions.
    simpl. rewrite lookup_insert_ne by done. rewrite Habsent. simpl.
    destruct options as [options|]; simpl in *; [|done]. by rewrite Hcaller.
Qed.

(** ** Code points as hexadecimal text *)

(** The value of a run of hexadecimal digits read after [acc]. *)
Fixpoint hexValue (d : Hexadecimal.uint) (acc : Z) : Z :=
  match d with
  | Hexadecimal.Nil => acc
  | Hexadecimal.D0 l => hexValue l (16 * acc)
  | Hexadecimal.D1 l => hexValue l (16 * acc + 1)
  | Hexadecimal.D2 l => hexValue l (16 * acc + 2)
  | Hexadecimal.D3 l => hexValue l (16 * acc + 3)
  | Hexadecimal.D4 l => hexValue l (16 * acc + 4)
  | Hexadecimal.D5 l => hexValue l (16 * acc + 5)
  | Hexadecimal.D6 l => hexValue l (16 * acc + 6)
  | Hexadecimal.D7 l => hexValue l (16 * acc + 7)
  | Hexadecimal.D8 l => hexValue l (16 * acc + 8)
  | Hexadecimal.D9 l => hexValue l (16 * acc + 9)
  | Hexadecimal.Da l => hexValue l (16 * acc + 10)
  | Hexadecimal.Db l => hexValue l (16 * acc + 11)
  | Hexadecimal.Dc l => hexValue l (16 * acc + 12)
  | Hexadecimal.Dd l => hexValue l (16 * acc + 13)
  | Hexadecimal.De l => hexValue l (16 * acc + 14)
  | Hexadecimal.Df l => hexValue l (16 * acc + 15)
  end.

Lemma of_hex_uint_acc_value (d : Hexadecimal.uint) : ∀ acc : positive,
  Z.pos (Pos.of_hex_uint_acc d acc) = hexValue d (Z.pos acc).
Proof.
  induction d as [|d IH|d IH|d IH|d IH|d IH|d IH|d IH|d IH|d IH|d IH|d IH|d IH|d IH|d IH|d IH|d IH];
    intros acc; simpl; [done|..]; rewrite IH; f_equal; lia.
Qed.

Lemma of_hex_uint_value (d : Hexadecimal.uint) : Z.of_N (Pos.of_hex_uint d) = hexValue d 0.
Proof.
  induction d as [|d IH|d IH|d IH|d IH|d IH|d IH|d IH|d IH|d IH|d IH|d IH|d IH|d IH|d IH|d IH|d IH];
    simpl; [done | done | ..]; by rewrite of_hex_uint_acc_value.
Qed.

Lemma digits_of_uint (d : Hexadecimal.uint) : ∀ acc : option Z,
  ParseInt.digits (NilEmpty.string_of_uint d) acc
  = match d with Hexadecimal.Nil => acc | _ => Some (hexValue d (acc ??! 0)) end.
Proof.
  induction d as [|d IH|d IH|d IH|d IH|d IH|d IH|d IH|d IH|d IH|d IH|d IH|d IH|d IH|d IH|d IH|d IH];
    intros acc; [done|..]; simpl;
    match goal with
    | |- ParseInt.digits _ (Some ?x) = Some (hexValue _ ?y) =>
        replace x with y by lia
    end;
    rewrite IH; by destruct d.
Qed.

Lemma parseInt16_of_uint (d : Hexadecimal.uint) (sign : Z) :
  d ≠ Hexadecimal.Nil →
  (let text := NilEmpty.string_of_uint d in
   let text :=
     if startsWith text "0x" || startsWith text "0X" then slice 2 text else text in
   match ParseInt.digits text None with
   | Some value => Num (sign * value)
   | None => NaN
   end) = Num (sign * hexValue d 0).
Proof.
  intros Hd.
  assert (startsWith (NilEmpty.string_of_uint d) "0x"
          || startsWith (NilEmpty.string_of_uint d) "0X" = false) as Hprefix.
  { destruct d as [|l|l|l|l|l|l|l|l|l|l|l|l|l|l|l|l]; try done; by destruct l. }
  cbv zeta. rewrite Hprefix, digits_of_uint. by destruct d.
Qed.

Lemma to_hex_uint_nonnil (n : N) : N.to_hex_uint n ≠ Hexadecimal.Nil.
Proof. destruct n; [done|]. apply HexadecimalPos.Unsigned.to_uint_nonnil. Qed.

Lemma parseInt16_unsigned (d : Hexadecimal.uint) :
  d ≠ Hexadecimal.Nil → ParseInt.parseInt16 (NilEmpty.string_of_uint d) = Num (hexValue d 0).
Proof.
  intros Hd. rewrite <- (Z.mul_1_l (hexValue d 0)).
  etrans; [|apply (parseInt16_of_uint d 1 Hd)].
  destruct d; [done|reflexivity..].
Qed.

Lemma parseInt16_negative (d : Hexadecimal.uint) :
  d ≠ Hexadecimal.Nil →
  ParseInt.parseInt16 ("-" +:+ NilEmpty.string_of_uint d)
  = Num (- hexValue d 0).
Proof.
  intros Hd. rewrite <- (Z.mul_1_l (hexValue d 0)), <- Z.mul_opp_l.
  etrans; [|apply (parseInt16_of_uint d (-1) Hd)]. reflexivity.
Qed.

(** X10. For a code point between -2^53 and 2^53, where every integer is a
    double, the hexadecimal text [generateCSS] prints for it
    ([toString(16)], with its sign for a negative number), written after
    [0x], is read back as that code point by the number parser of the
    manifest attributes. *)
Theorem hexadecimal_round_trip `{Externals} (n : Z) :
  - 2 ^ 53 < n < 2 ^ 53 →
  parseNumber (Some ("0x" +:+ Text.toString16 n)) = Some (Num n).
Proof.
  intros _. unfold parseNumber.
  assert (startsWith ("0x" +:+ Text.toString16 n) "0x" = true) as ->
    by (apply prefix_begins; by eexists).
  change (slice 2 ("0x" +:+ Text.toString16 n)) with (Text.toString16 n).
  f_equal. unfold Text.toString16.
  pose proof (to_hex_uint_nonnil (Z.abs_N n)) as Hd.
  assert (NilZero.string_of_uint (N.to_hex_uint (Z.abs_N n))
          = NilEmpty.string_of_uint (N.to_hex_uint (Z.abs_N n))) as ->
    by (by destruct (N.to_hex_uint (Z.abs_N n))).
  pose proof (of_hex_uint_value (N.to_hex_uint (Z.abs_N n))) as Hvalue.
  change (Pos.of_hex_uint ?d) with (N.of_hex_uint d) in Hvalue.
  rewrite HexadecimalN.Unsigned.of_to in Hvalue.
  destruct (Z.ltb_spec n 0).
  - rewrite parseInt16_negative by done. f_equal. lia.
  - rewrite parseInt16_unsigned by done. f_equal. lia.
Qed.

(** ** Files that cannot be read *)

Lemma processSources_app `{Externals} before rest fs : ∀ result,
  processSources (before ++ rest) result fs
  = processSources before result fs
    ≫= λ result, processSources rest result fs.
Proof.
  induction before as [|source before IH]; intros result; simpl; [done|].
  destruct (processSource source result fs) as [next|]; simpl; [|done].
  apply IH.
Qed.

(** X11. When the sources before it have been collected and the file of a
    source that has to be read cannot be read, the compile from sources
    throws the error of the file system; it calls no generator, and the
    sources after it are not looked at. *)
Theorem unreadable_source_fails_the_compile `{Externals}
    (before rest : list Source.t) (source : Source.t)
    (formats : option (list Format.t)) (options : option IconFontOptions)
    (fs : FileSystem) (collected : CompileIconFontResult) (error : string) :
  collectSources before options fs = Ok collected →
  readsFile source →
  readText fs (sourcePath source) = Throw error →
  compileIconFontFromSources (before ++ source :: rest) formats options fs
  = ([], Throw error).
Proof.
  intros Hbefore Hreads Hthrow.
  unfold compileIconFontFromSources, collectSources in *.
  rewrite processSources_app, Hbefore. simpl.
  assert (processSource source collected fs = Throw error) as ->; [|done].
  destruct source as [path|source]; simpl in *.
  - unfold processFile. by rewrite Hthrow.
  - by rewrite Hreads, Hthrow.
Qed.

(** ** Collection fails only with its collaborators *)

Section CollaboratorFacts.
Context `{Externals}.

#[local] Opaque getUnique getUniqueUnicode.


(** ** Files whose root is not an icon *)


End CollaboratorFacts.

(** ** The order of generation *)

(** X14. In every run of [generateIconFont], returning or not, the
    generators are called in the order font container, [ttf], [eot],
    [woff], [woff2], sprite, script, stylesheet, preview (some of them left
    out), so each after what it is derived from; and a generator is called
    only for an artifact that a requested format implies. *)
Theorem generators_run_in_order `{Externals} (result : CompileIconFontResult)
    (formats : list Format.t) (options : IconFontOptions) :
  calls (generateIconFont result formats options) `sublist_of` generationOrder
  ∧ ∀ artifact,
      artifact ∈ calls (generateIconFont result formats options) →
      activated formats artifact.
Proof.
  split.
  - destruct (generateIconFont_run result formats options) as [[rest Hprefix] _].
    etrans; [|apply (sublist_filter
      (λ artifact, Flags.get (Flags.of_formats formats) artifact = true))].
    rewrite Hprefix. by apply sublist_inserts_r.
  - intros artifact Hin. by eapply of_formats_activated,
      generateIconFont_calls_flagged.
Qed.

(** ** A [unicode] attribute that denotes no number *)

Section UnparsableFacts.
Context `{Externals}.

#[local] Opaque getUnique getUniqueUnicode.

(** X15. An [svg] node whose [unicode] attribute is [0x] followed by text
    that does not begin with a hexadecimal number, or whose attribute has no
    first character, is given the first free code point from 0xEA01 on; the
    icon is not flagged [autoUnicode] and the cursor stays where it was. *)
Theorem unparsable_unicode_falls_back (icon : SVGNode) (path text : string)
    (result : CompileIconFontResult) :
  name icon = Some "svg" →
  attribute icon "unicode" = Some text →
  (startsWith text "0x" = true ∧ ParseInt.parseInt16 (slice 2 text) = NaN)
  ∨ (startsWith text "0x" = false ∧ codePointAt0 text = None) →
  ∃ new : SVGIcon,
    icons (processNode icon path result) = icons result ++ [new]
    ∧ autoUnicode new = false
    ∧ 0xea01 ≤ unicode new
    ∧ (unicode new ∉ unicodes result)
    ∧ (∀ k, 0xea01 ≤ k < unicode new → k ∈ unicodes result)
    ∧ startUnicode (processNode icon path result) = startUnicode result.
Proof.
  intros Hsvg Hattr Hcase.
  destruct (processNode_explicit icon path result text Hsvg Hattr)
    as (new & Hicons & Hauto & Hcode & _ & Hcursor).
  assert (numberArgument (if startsWith text "0x" then parseNumber (Some text)
                          else codePointAt0 text) = NaN) as Hnan.
  { destruct Hcase as [[Hhex Hparse]|[Hhex Hnone]].
    - unfold parseNumber. by rewrite Hhex, Hparse.
    - by rewrite Hhex, Hnone. }
  rewrite Hnan, getUniqueUnicode_NaN in Hcode.
  destruct (getUniqueUnicode_least 0xea01 (unicodes result))
    as (Hle & Hfresh & Hbelow).
  exists new. rewrite Hcode. by repeat split.
Qed.

End UnparsableFacts.

(** ** The rules of the stylesheet *)

(** X16. The stylesheet has a rule for every listed icon: the class name
    of the icon after a dot and the prefix, which is the configured
    [classNamePrefix], or else the base name of [fileName], of [fontName] or
    of [icon], and is followed by a hyphen unless it is empty; then
    [:before] and the code point in hexadecimal as content. *)
Theorem every_icon_has_its_rule `{Externals} (icons : list SVGIcon)
    (options : IconFontOptions) (icon : SVGIcon) :
  icon ∈ icons →
  let classNamePrefix :=
    Options.classNamePrefix options
    ??! getName (Options.fileName options ??! Options.fontName options
                 ??! "icon") in
  ∃ before after : string,
    generateCSS icons options
    = before
      +:+ ("." +:+ (if decide (classNamePrefix = EmptyString) then EmptyString
                    else classNamePrefix +:+ "-")
           +:+ className icon +:+ ":before { content: " +:+ Text.doubleQuote
           +:+ Text.backslash +:+ Text.toString16 (unicode icon)
           +:+ Text.doubleQuote +:+ "; }")
      +:+ after.
Proof.
  intros Hin classNamePrefix. unfold generateCSS. fold classNamePrefix.
  destruct (join_contains (iconRule classNamePrefix) Text.newline icon icons Hin)
    as (before & after & ->).
  eexists (_ +:+ before), after. rewrite append_assoc. do 2 f_equal.
  unfold iconRule. destruct (decide (classNamePrefix = EmptyString)) as [->|Hne].
  - by rewrite bool_decide_eq_false_2 by (by intros ?).
  - by rewrite bool_decide_eq_true_2.
Qed.

(** ** Identities that are free are granted *)

Section GrantedFacts.
Context `{Externals}.

#[local] Opaque getUnique getUniqueUnicode.

(** X17. An [svg] node that asks for an [id], a [class] and a hexadecimal
    [unicode] that are all free gets exactly these as icon name, class name
    and code point; the icon is not flagged [autoUnicode], the cursor stays,
    and the title is the [title] attribute or else the name. *)
Theorem free_identities_are_granted (icon : SVGNode) (path id class text : string)
    (code : Z) (result : CompileIconFontResult) :
  name icon = Some "svg" →
  attribute icon "id" = Some id →
  attribute icon "class" = Some class →
  attribute icon "unicode" = Some text →
  startsWith text "0x" = true →
  ParseInt.parseInt16 (slice 2 text) = Num code →
  id ∉ iconNames result →
  class ∉ classNames result →
  code ∉ unicodes result →
  ∃ new : SVGIcon,
    icons (processNode icon path result) = icons result ++ [new]
    ∧ iconName new = id
    ∧ className new = class
    ∧ unicode new = code
    ∧ autoUnicode new = false
    ∧ title new = Some (attribute icon "title" ??! id)
    ∧ startUnicode (processNode icon path result) = startUnicode result.
Proof.
  intros Hsvg Hid Hclass Hunicode Hhex Hparse Hn Hc Hu.
  pose proof (getUnique_free id (iconNames result) Hn) as Fn.
  pose proof (getUnique_free class (classNames result) Hc) as Fc.
  pose proof (getUniqueUnicode_free code (unicodes result) Hu) as Fu.
  unfold processNode. rewrite decide_True by done.
  rewrite Hid, Hclass, Hunicode, Hhex. unfold parseNumber. rewrite Hhex, Hparse.
  simpl.
  destruct (getUnique id (iconNames result)) as [iconName' iconNames'].
  destruct (getUnique class (classNames result)) as [className' classNames'].
  destruct (getUniqueUnicode (Num code) (unicodes result))
    as [unicode' unicodes'].
  simpl in *. subst. eexists. repeat split.
  simpl. by destruct (attribute icon "title").
Qed.

End GrantedFacts.

(** ** Where the automatic code points start *)

Section StartFacts.
Context `{Externals}.

(** X18. In a manifest whose first child is an inline [svg] without
    [unicode] attribute, the first listed icon gets the caller's
    [startUnicode] when there is one, else the number of the [startUnicode]
    attribute of the root, and 0xEA01 when neither is there or the one used
    is NaN: the caller's option goes before the attribute. *)
Theorem first_automatic_code_point (rootNode first : SVGNode)
    (others : list SVGNode) (path : string) (options : option IconFontOptions)
    (fs : FileSystem) (collected : CompileIconFontResult) :
  name rootNode = Some "iconfont" →
  children rootNode = Some (first :: others) →
  name first = Some "svg" →
  attribute first "src" = None →
  attribute first "unicode" = None →
  collectIconFont rootNode path options fs = Ok collected →
  ∃ icon rest,
    icons collected = icon :: rest
    ∧ autoUnicode icon = true
    ∧ unicode icon
      = match options ≫= Options.startUnicode with
        | Some (Num start) => start
        | Some NaN => 0xea01
        | None =>
            match parseNumber ((attr rootNode ??! ∅) !! "startUnicode") with
            | Some (Num start) => start
            | _ => 0xea01
            end
        end.
Proof.
  intros Hroot Hchildren Hfirst Hsrc Hauto. unfold collectIconFont.
  rewrite decide_True, Hchildren by done.
  set (cursor := (options ≫= Options.startUnicode)
                 ??! parseNumber ((attr rootNode ??! ∅) !! "startUnicode")
                 ??! Num 59905).
  simpl. unfold processChild. rewrite decide_True, Hsrc by done. simpl.
  intros Hrest.
  apply processChildren_steps, collection_steps_prefix in Hrest as [rest Hrest].
  destruct (processNode_auto first path (newResult cursor) Hfirst Hauto)
    as (icon & Hicons & Hflag & Hcode & _).
  rewrite Hicons in Hrest. simpl in Hrest, Hcode.
  exists icon, rest. split; [done|]. split; [done|]. rewrite Hcode.
  unfold cursor.
  destruct (options ≫= Options.startUnicode) as [[|start]|]; simpl;
    [| |destruct (parseNumber _) as [[|start]|]; simpl];
    rewrite ?getUniqueUnicode_NaN; by apply getUniqueUnicode_free.
Qed.

(** X19. When the font container is activated and the font stream fails,
    [generateIconFont] throws the error of the stream after that one call:
    nothing is generated, not even a stylesheet or a preview that were
    asked for. *)
Theorem failing_font_stream_stops_generation (result : CompileIconFontResult)
    (formats : list Format.t) (options : IconFontOptions) (error : string) :
  activated formats Format.svgFont →
  SVGIcons2SVGFontStream (fontStreamOptions (icons result) options)
    (icons result) = Throw error →
  generateIconFont result formats options = ([Format.svgFont], Throw error).
Proof.
  intros Hflag%of_formats_activated Hthrow. unfold generateIconFont.
  simpl in Hflag. rewrite Hflag. unfold generateSVGFont. by rewrite Hthrow.
Qed.

End StartFacts.

(** ** The further properties on the concrete environment *)

(** A manifest in [icons/] with a pattern, an inline icon and a plain
    file. *)
Lemma manifest_dependencies_witness :
  dependencies
    (Demo.value (processChildren (H := Demo.externals) Demo.mixedChildren
                   "icons/set.iconfont" (newResult NaN) Demo.everyFile))
  = ["icons/home.svg"; "icons/user.svg"; "icons/home.svg"]
  ∧ globDependencies
      (Demo.value (processChildren (H := Demo.externals) Demo.mixedChildren
                     "icons/set.iconfont" (newResult NaN) Demo.everyFile))
    = [("*.svg", "icons")].
Proof.
  apply (manifest_dependencies (H := Demo.externals) Demo.mixedChildren
           "icons/set.iconfont" Demo.everyFile (newResult NaN)).
  vm_compute. reflexivity.
Defined.

(** Three source objects, one of them read from the file system. *)
Lemma sources_dependencies_witness :
  dependencies
    (Demo.value (returned (compileIconFontFromSources (H := Demo.externals)
                             Demo.threeHomes None None Demo.everyFile)))
  = ["a/home.svg"; "b/home.svg"; "c/home.svg"]
  ∧ globDependencies
      (Demo.value (returned (compileIconFontFromSources (H := Demo.externals)
                               Demo.threeHomes None None Demo.everyFile)))
    = [].
Proof.
  apply (sources_dependencies (H := Demo.externals) Demo.threeHomes None None
           Demo.everyFile).
  vm_compute. reflexivity.
Defined.

Lemma source_objects_get_consecutive_code_points_witness :
  map unicode
    (icons (Demo.value (returned (compileIconFontFromSources
                                    (H := Demo.externals) Demo.threeHomes None
                                    None Demo.everyFile))))
  = seqZ 0xea01 3
  ∧ map unicode
      (icons (Demo.value (returned (compileIconFontFromSources
                                      (H := Demo.externals) Demo.threeHomes
                                      None None Demo.everyFile))))
    = [0xea01; Double.increment 0xea01;
       Double.increment (Double.increment 0xea01)]
  ∧ Forall (λ icon, autoUnicode icon = true ∧ className icon = iconName icon
                    ∧ title icon = None)
      (icons (Demo.value (returned (compileIconFontFromSources
                                      (H := Demo.externals) Demo.threeHomes
                                      None None Demo.everyFile)))).
Proof.
  apply (source_objects_get_consecutive_code_points (H := Demo.externals)
           Demo.threeHomes None None Demo.everyFile).
  - repeat constructor.
  - vm_compute. discriminate.
  - vm_compute. discriminate.
  - vm_compute. reflexivity.
Defined.

(** The code point 0xEA01. *)
Lemma hexadecimal_round_trip_witness :
  parseNumber (H := Demo.externals) (Some ("0x" +:+ Text.toString16 0xea01))
  = Some (Num 0xea01).
Proof.
  apply (hexadecimal_round_trip (H := Demo.externals) 0xea01). lia.
Defined.

Lemma same_name_sources_are_numbered_witness :
  map iconName
    (icons (Demo.value (returned (compileIconFontFromSources
                                    (H := Demo.externals) Demo.threeHomes None
                                    None Demo.everyFile))))
  = ["home"; "home-2"; "home-3"].
Proof.
  apply (same_name_sources_are_numbered (H := Demo.externals) "home"
           Demo.threeHomes None None Demo.everyFile).
  - repeat constructor.
  - vm_compute. reflexivity.
Defined.

(** The third source with and without the properties it asks for. *)
Lemma source_properties_are_not_read_witness :
  compileIconFontFromSources (H := Demo.externals)
    [Demo.sourceObjectNamed "c/home.svg" (Some "<svg/>")] None None Demo.fs
  = compileIconFontFromSources (H := Demo.externals)
      [Demo.sourceObject "c/home.svg" (Some "<svg/>")] None None Demo.fs.
Proof.
  apply (source_properties_are_not_read (H := Demo.externals)).
  repeat constructor.
Defined.

(** [woff2] alone, and [woff2] twice after the formats it implies. *)
Lemma requests_with_the_same_artifacts_witness :
  (∀ result options,
     generateIconFont (H := Demo.externals) result [Format.woff2] options
     = generateIconFont (H := Demo.externals) result
         [Format.ttf; Format.svgFont; Format.woff2; Format.woff2] options)
  ∧ (∀ content path options fs,
       compileIconFont (H := Demo.externals) content path
         (Some [Format.woff2]) options fs
       = compileIconFont (H := Demo.externals) content path
           (Some [Format.ttf; Format.svgFont; Format.woff2; Format.woff2])
           options fs)
  ∧ (∀ sources options fs,
       compileIconFontFromSources (H := Demo.externals) sources
         (Some [Format.woff2]) options fs
       = compileIconFontFromSources (H := Demo.externals) sources
           (Some [Format.ttf; Format.svgFont; Format.woff2; Format.woff2])
           options fs).
Proof.
  apply (requests_with_the_same_artifacts (H := Demo.externals)).
  intros artifact. rewrite <- !of_formats_activated.
  destruct artifact; vm_compute; tauto.
Defined.

(** The second of three sources has no content and no file. *)
Lemma unreadable_source_fails_the_compile_witness :
  compileIconFontFromSources (H := Demo.externals)
    ([Demo.sourceObject "a/home.svg" (Some "<svg/>")]
     ++ Demo.sourceObject "b/home.svg" None
        :: [Demo.sourceObject "c/home.svg" (Some "<svg/>")])
    None None Demo.noFile
  = ([], Throw "ENOENT").
Proof.
  apply (unreadable_source_fails_the_compile (H := Demo.externals)
           [Demo.sourceObject "a/home.svg" (Some "<svg/>")]
           [Demo.sourceObject "c/home.svg" (Some "<svg/>")]
           (Demo.sourceObject "b/home.svg" None) None None Demo.noFile
           (Demo.value (collectSources (H := Demo.externals)
                          [Demo.sourceObject "a/home.svg" (Some "<svg/>")]
                          None Demo.noFile))).
  - vm_compute. reflexivity.
  - reflexivity.
  - reflexivity.
Defined.



(** [unicode="0xzz"] after the code point 0xEA01 has been taken. *)
Lemma unparsable_unicode_falls_back_witness :
  ∃ new : SVGIcon,
    icons (processNode (H := Demo.externals)
             (Demo.svgNode [("unicode", "0xzz")]) "icons.iconfont"
             (processNode (H := Demo.externals) (Demo.svgNode [])
                "icons.iconfont" (newResult NaN)))
    = icons (processNode (H := Demo.externals) (Demo.svgNode [])
               "icons.iconfont" (newResult NaN)) ++ [new]
    ∧ autoUnicode new = false
    ∧ 0xea01 ≤ unicode new
    ∧ (unicode new
       ∉ unicodes (processNode (H := Demo.externals) (Demo.svgNode [])
                     "icons.iconfont" (newResult NaN)))
    ∧ (∀ k, 0xea01 ≤ k < unicode new →
       k ∈ unicodes (processNode (H := Demo.externals) (Demo.svgNode [])
                       "icons.iconfont" (newResult NaN)))
    ∧ startUnicode
        (processNode (H := Demo.externals)
           (Demo.svgNode [("unicode", "0xzz")]) "icons.iconfont"
           (processNode (H := Demo.externals) (Demo.svgNode [])
              "icons.iconfont" (newResult NaN)))
      = startUnicode (processNode (H := Demo.externals) (Demo.svgNode [])
                        "icons.iconfont" (newResult NaN)).
Proof.
  apply (unparsable_unicode_falls_back (H := Demo.externals)
           (Demo.svgNode [("unicode", "0xzz")]) "icons.iconfont" "0xzz").
  - reflexivity.
  - reflexivity.
  - left. split; reflexivity.
Defined.

(** The icon [fourth] in a stylesheet with the prefix [icons]. *)
Lemma every_icon_has_its_rule_witness :
  ∃ before after : string,
    generateCSS (H := Demo.externals) [Demo.warn; Demo.fourth]
      (manifestOptions (H := Demo.externals) Demo.twoNamedA "icons.iconfont"
         (newResult NaN) None)
    = before
      +:+ (".icons-icons-4:before { content: " +:+ Text.doubleQuote
           +:+ Text.backslash +:+ "43" +:+ Text.doubleQuote +:+ "; }")
      +:+ after.
Proof.
  apply (every_icon_has_its_rule (H := Demo.externals)
           [Demo.warn; Demo.fourth]
           (manifestOptions (H := Demo.externals) Demo.twoNamedA
              "icons.iconfont" (newResult NaN) None) Demo.fourth).
  apply list_elem_of_further, list_elem_of_here.
Defined.

(** [<svg id="home" class="house" unicode="0x41"/>] in an empty
    registry. *)
Lemma free_identities_are_granted_witness :
  ∃ new : SVGIcon,
    icons (processNode (H := Demo.externals)
             (Demo.svgNode [("id", "home"); ("class", "house");
                            ("unicode", "0x41")])
             "icons.iconfont" (newResult NaN))
    = icons (newResult NaN) ++ [new]
    ∧ iconName new = "home"
    ∧ className new = "house"
    ∧ unicode new = 0x41
    ∧ autoUnicode new = false
    ∧ title new = Some "home"
    ∧ startUnicode
        (processNode (H := Demo.externals)
           (Demo.svgNode [("id", "home"); ("class", "house");
                          ("unicode", "0x41")])
           "icons.iconfont" (newResult NaN))
      = startUnicode (newResult NaN).
Proof.
  apply (free_identities_are_granted (H := Demo.externals)
           (Demo.svgNode [("id", "home"); ("class", "house");
                          ("unicode", "0x41")])
           "icons.iconfont" "home" "house" "0x41" 0x41 (newResult NaN)).
  - reflexivity.
  - reflexivity.
  - reflexivity.
  - reflexivity.
  - reflexivity.
  - reflexivity.
  - apply not_elem_of_empty.
  - apply not_elem_of_empty.
  - apply not_elem_of_empty.
Defined.

(** The manifest with [startUnicode="0x40"], with and without a caller's
    [startUnicode]. *)
Lemma first_automatic_code_point_witness :
  ∃ icon rest,
    icons (Demo.value (collectIconFont (H := Demo.externals) Demo.cursorAt41
                         "icons.iconfont" None Demo.fs))
    = icon :: rest
    ∧ autoUnicode icon = true
    ∧ unicode icon = 0x40.
Proof.
  apply (first_automatic_code_point (H := Demo.externals) Demo.cursorAt41
           (Demo.svgNode [])
           [Demo.svgNode []; Demo.svgNode [("unicode", "0x41")]; Demo.svgNode []]
           "icons.iconfont" None Demo.fs).
  - reflexivity.
  - reflexivity.
  - reflexivity.
  - reflexivity.
  - reflexivity.
  - vm_compute. reflexivity.
Defined.

(** A stylesheet and a font asked for from a stream that fails. *)
Lemma failing_font_stream_stops_generation_witness :
  generateIconFont (H := Demo.brokenStream) (newResult NaN)
    [Format.css; Format.woff] Options.empty
  = ([Format.svgFont], Throw "Invalid glyph").
Proof.
  apply (failing_font_stream_stops_generation (H := Demo.brokenStream)).
  - exists Format.woff. split.
    + apply list_elem_of_further, list_elem_of_here.
    + apply list_elem_of_further, list_elem_of_further, list_elem_of_here.
  - reflexivity.
Defined.
